(** * Payment settlement core of the credit-card backend

    A shallow embedding of the payment routes (the creation handler,
    the webhook handler, [processPayment], the handlers that read a
    payment and the verification of a gateway payment; the text of
    [backend/src/routes/payments.ts], which the sources carry in
    [backend/src/config/razorpay.ts]), of [logActivity] and of the
    token utilities carried by [backend/src/utils/activityLogger.ts],
    together with the properties of the settlement workflow and of the
    tokens.

    Conventions of the embedding.
    - Tables are finite maps from the primary key to the row
      ([gmap]); the Prisma client calls become functions on them.
    - Monetary amounts are JavaScript numbers in the source, binary64
      doubles.  The handlers are embedded on whole numbers ([Z]): on
      whole numbers below 2^53 the arithmetic of doubles is exact.  For
      amounts with a fraction the sum and the loop over the statements
      are embedded once more on doubles ([sumBalancesOnDoubles],
      [applyToStatementsOnDoubles]).
    - Time stamps ([createdAt], [updatedAt]) are not part of the rows;
      a due date is an integer (epoch milliseconds).
    - What the handlers cannot decide themselves (a storage fault, the
      outcome of [Math.random], a failing side-effect write) is read
      from an environment record [Env]. *)

From stdpp Require Import gmap strings list fin_maps sorting.
From Stdlib Require Import ZArith Lia Ascii PrimFloat.

Open Scope Z_scope.

Set Warnings "-inexact-float".

(** ** Data model *)

Inductive CardStatus := ACTIVE | BLOCKED | SUSPENDED.

Inductive PaymentStatus := PENDING | SUCCESS | FAILED.

#[global] Instance CardStatus_eq_dec : EqDecision CardStatus.
Proof. solve_decision. Defined.

#[global] Instance PaymentStatus_eq_dec : EqDecision PaymentStatus.
Proof. solve_decision. Defined.

(** Row of table [Card]; the key of the table is the card id. *)
Record Card := mkCard {
  card_userId : Z;
  card_status : CardStatus;
  card_last4 : string
}.

(** Row of table [Statement]; the key of the table is the statement id. *)
Record Statement := mkStatement {
  stmt_cardId : Z;
  dueDate : Z;
  balance : Z;
  isPaid : bool
}.

#[global] Instance Statement_eq_dec : EqDecision Statement.
Proof. solve_decision. Defined.

(** Row of table [Payment]; the key of the table is the payment id, a
    text column.  [pay_cardId] is nullable since the second migration.
    [idempotencyKey] is the column the creation handler looks up; the
    migrations of the repository do not create it, see
    [hasIdempotencyKey] below. *)
Record Payment := mkPayment {
  pay_cardId : option Z;
  pay_userId : Z;
  pay_amount : Z;
  pay_method : string;
  pay_status : PaymentStatus;
  externalId : option string;
  idempotencyKey : option string
}.

(** Row of table [Activity] as [logActivity] writes it.  The
    description text, a locale-formatted rendering of the amount, is
    left out. *)
Record Activity := mkActivity {
  act_userId : Z;
  act_type : string;
  act_title : string;
  act_amount : Z;
  act_method : string;
  act_status : PaymentStatus
}.

(** A notification as the two helpers of [utils/notifications] are
    called: the user, success or failure, the amount and the last four
    digits of the card. *)
Record Notification := mkNotification {
  ntf_userId : Z;
  ntf_success : bool;
  ntf_amount : Z;
  ntf_last4 : string
}.

(** Errors that travel as JavaScript exceptions. *)
Inductive Error :=
| NotFoundError (msg : string)
| ForbiddenError (msg : string)
| ValidationError (msg : string)
| TypeError
| RecordNotFound
| UnknownFieldError
| StorageError
| NotificationError.

Inductive Result (A : Type) :=
| Ok (a : A)
| Throw (e : Error).

Arguments Ok {A} a.
Arguments Throw {A} e.

(** Lines written by [logger] and [console.error]. *)
Inductive LogEntry :=
| LogPaymentCreated (paymentId : string) (cardId userId : Z)
| LogPaymentProcessed (paymentId : string) (st : PaymentStatus)
| LogErrorProcessing (paymentId : string) (e : Error)
| LogPaymentProcessingError (e : Error)
| LogIdempotencySkipped
| LogActivityLoggingFailed (userId : Z).

(** The database and the log.  [hasIdempotencyKey] tells whether the
    Payment model has the [idempotencyKey] field: when it has not, the
    lookup of the creation handler throws. *)
Record World := mkWorld {
  cards : gmap Z Card;
  statements : gmap Z Statement;
  payments : gmap string Payment;
  notifications : list Notification;
  activities : list Activity;
  hasIdempotencyKey : bool;
  logs : list LogEntry
}.

(** The choices of the environment.
    - [txFault = Some k]: the storage layer fails at the [k]-th
      operation (counted from 0) issued on the transaction client.
    - [activityFault]: [prisma.activity.create] rejects.
    - [notifyFault]: the notification helper rejects.
    - [randomSuccess]: the outcome of [Math.random() > 0.05]. *)
Record Env := mkEnv {
  txFault : option nat;
  activityFault : bool;
  notifyFault : bool;
  randomSuccess : bool
}.

Definition noFault : Env :=
  {| txFault := None; activityFault := false; notifyFault := false;
     randomSuccess := true |}.

(** ** Record updates *)

Definition set_statements (m : gmap Z Statement) (w : World) : World :=
  {| cards := cards w; statements := m; payments := payments w;
     notifications := notifications w; activities := activities w;
     hasIdempotencyKey := hasIdempotencyKey w; logs := logs w |}.

Definition set_payments (m : gmap string Payment) (w : World) : World :=
  {| cards := cards w; statements := statements w; payments := m;
     notifications := notifications w; activities := activities w;
     hasIdempotencyKey := hasIdempotencyKey w; logs := logs w |}.

Definition add_notification (n : Notification) (w : World) : World :=
  {| cards := cards w; statements := statements w; payments := payments w;
     notifications := notifications w ++ [n]; activities := activities w;
     hasIdempotencyKey := hasIdempotencyKey w; logs := logs w |}.

Definition add_activity (a : Activity) (w : World) : World :=
  {| cards := cards w; statements := statements w; payments := payments w;
     notifications := notifications w; activities := activities w ++ [a];
     hasIdempotencyKey := hasIdempotencyKey w; logs := logs w |}.

Definition add_log (l : LogEntry) (w : World) : World :=
  {| cards := cards w; statements := statements w; payments := payments w;
     notifications := notifications w; activities := activities w;
     hasIdempotencyKey := hasIdempotencyKey w; logs := logs w ++ [l] |}.

(** ** Strings *)

Definition status_string (s : PaymentStatus) : string :=
  match s with
  | PENDING => "PENDING"
  | SUCCESS => "SUCCESS"
  | FAILED => "FAILED"
  end.

Definition lower_ascii (c : Ascii.ascii) : Ascii.ascii :=
  let n := Ascii.nat_of_ascii c in
  if ((65 <=? n) && (n <=? 90))%nat then Ascii.ascii_of_nat (n + 32) else c.

Fixpoint toLowerCase (s : string) : string :=
  match s with
  | EmptyString => EmptyString
  | String c r => String (lower_ascii c) (toLowerCase r)
  end.

(** [normalizeStatus]: a falsy status (null or the empty string) is
    returned as it is, any other is lower-cased. *)
Definition normalizeStatus (status : option string) : option string :=
  match status with
  | None => None
  | Some EmptyString => Some EmptyString
  | Some s => Some (toLowerCase s)
  end.

Definition is_space (c : Ascii.ascii) : bool :=
  let n := Ascii.nat_of_ascii c in
  ((9 <=? n) && (n <=? 13) || (n =? 32))%nat.

Fixpoint trimStart (s : string) : string :=
  match s with
  | EmptyString => EmptyString
  | String c r => if is_space c then trimStart r else s
  end.

Fixpoint trimEnd (s : string) : string :=
  match s with
  | EmptyString => EmptyString
  | String c r =>
      match trimEnd r with
      | EmptyString => if is_space c then EmptyString else String c EmptyString
      | r' => String c r'
      end
  end.

Definition trim (s : string) : string := trimEnd (trimStart s).

(** [(req.header('Idempotency-Key') || '').trim() || undefined] *)
Definition readIdempotencyKey (header : option string) : option string :=
  match trim (default EmptyString header) with
  | EmptyString => None
  | k => Some k
  end.

(** ** The transaction client

    The callback of [prisma.$transaction] runs in [Tx]: it reads the
    environment, threads the world and the number of operations issued
    so far on the transaction client, and may throw. *)

Definition Tx (A : Type) : Type :=
  Env → World * nat → Result A * (World * nat).

#[global] Instance Tx_ret : MRet Tx := λ A a _ s, (Ok a, s).

#[global] Instance Tx_bind : MBind Tx := λ A B f m env s,
  match m env s with
  | (Ok a, s') => f a env s'
  | (Throw e, s') => (Throw e, s')
  end.

(** A function of the world that cannot throw, awaited in the callback. *)
Definition tx_lift (f : Env → World → World) : Tx unit :=
  λ env s, (Ok tt, (f env s.1, s.2)).

(** Every operation on the transaction client first reaches the storage
    layer, which fails when the environment says so. *)
Definition tx_op : Tx unit := λ env s,
  if decide (txFault env = Some s.2)
  then (Throw StorageError, (s.1, S s.2))
  else (Ok tt, (s.1, S s.2)).

(** [data: { status, externalId }]: an undefined [externalId] leaves the
    column as it is. *)
Definition withStatus (status : PaymentStatus) (ext : option string)
    (p : Payment) : Payment :=
  {| pay_cardId := pay_cardId p; pay_userId := pay_userId p;
     pay_amount := pay_amount p; pay_method := pay_method p;
     pay_status := status;
     externalId := match ext with
                   | Some e => Some e
                   | None => externalId p
                   end;
     idempotencyKey := idempotencyKey p |}.

(** [tx.payment.update({ where: { id }, data: { status, externalId } })]:
    updating a missing row is an error. *)
Definition tx_payment_update (paymentId : string) (status : PaymentStatus)
    (ext : option string) : Tx Payment :=
  _ ← tx_op;
  (λ _ s,
    match payments s.1 !! paymentId with
    | None => (Throw RecordNotFound, s)
    | Some p =>
        let p' := withStatus status ext p in
        (Ok p', (set_payments (<[paymentId := p']> (payments s.1)) s.1, s.2))
    end) : Tx Payment.

(** The [where] clause [{ cardId, isPaid: false }].  A null card id
    selects no statement: the column is not nullable. *)
Definition isUnpaidOf (cardId : option Z) (row : Z * Statement) : Prop :=
  cardId = Some (stmt_cardId row.2) ∧ isPaid row.2 = false.

#[global] Instance isUnpaidOf_dec cardId row : Decision (isUnpaidOf cardId row).
Proof. unfold isUnpaidOf. apply _. Defined.

(** [orderBy: { dueDate: 'asc' }] *)
Definition byDueDate (a b : Z * Statement) : Prop := dueDate a.2 ≤ dueDate b.2.

#[global] Instance byDueDate_dec a b : Decision (byDueDate a b).
Proof. unfold byDueDate. apply _. Defined.

(** [statement.findMany({ where: { cardId, isPaid: false },
    orderBy: { dueDate: 'asc' } })].  The order among statements with the
    same due date, which the database leaves open, is that of the sort. *)
Definition statement_findMany (cardId : option Z) (m : gmap Z Statement)
    : list (Z * Statement) :=
  merge_sort byDueDate (filter (isUnpaidOf cardId) (map_to_list m)).

Definition tx_statement_findMany (cardId : option Z) : Tx (list (Z * Statement)) :=
  _ ← tx_op;
  (λ _ s, (Ok (statement_findMany cardId (statements s.1)), s))
    : Tx (list (Z * Statement)).

(** [tx.statement.update({ where: { id }, data })] *)
Definition tx_statement_update (id : Z) (data : Statement → Statement) : Tx unit :=
  _ ← tx_op;
  (λ _ s,
    match statements s.1 !! id with
    | None => (Throw RecordNotFound, s)
    | Some row =>
        (Ok tt, (set_statements (<[id := data row]> (statements s.1)) s.1, s.2))
    end) : Tx unit.

(** [data: { isPaid: true, balance: 0 }] *)
Definition payOff (row : Statement) : Statement :=
  {| stmt_cardId := stmt_cardId row; dueDate := dueDate row;
     balance := 0; isPaid := true |}.

(** [data: { balance: b }] *)
Definition setBalance (b : Z) (row : Statement) : Statement :=
  {| stmt_cardId := stmt_cardId row; dueDate := dueDate row;
     balance := b; isPaid := isPaid row |}.

(** The [for] loop of [processPayment] over the statements read at the
    start; [remainingAmount] is the loop variable.  The amounts are
    whole numbers here; [applyToStatementsOnDoubles] below is the loop
    on doubles. *)
Fixpoint applyToStatements (remainingAmount : Z)
    (stmts : list (Z * Statement)) : Tx unit :=
  match stmts with
  | [] => mret tt
  | (id, statement) :: rest =>
      if remainingAmount <=? 0 then mret tt
      else if remainingAmount >=? balance statement then
        _ ← tx_statement_update id payOff;
        applyToStatements (remainingAmount - balance statement) rest
      else
        _ ← tx_statement_update id
              (setBalance (balance statement - remainingAmount));
        applyToStatements 0 rest
  end.

(** ** Side effects *)

Record ActivityData := mkActivityData {
  ad_type : string;
  ad_title : string;
  ad_amount : Z;
  ad_method : string;
  ad_status : option PaymentStatus
}.

(** [createActivityData.payment] *)
Definition createActivityData_payment (amount : Z) (method : string)
    (status : PaymentStatus) : ActivityData :=
  {| ad_type := "PAYMENT"; ad_title := "Payment Made"; ad_amount := amount;
     ad_method := method; ad_status := Some status |}.

(** [logActivity]: the write goes through the global client, and a
    failure of it is caught and printed. *)
Definition logActivity (userId : Z) (activityData : ActivityData)
    (env : Env) (w : World) : World :=
  if activityFault env
  then add_log (LogActivityLoggingFailed userId) w
  else add_activity
         {| act_userId := userId; act_type := ad_type activityData;
            act_title := ad_title activityData;
            act_amount := ad_amount activityData;
            act_method := ad_method activityData;
            act_status := default SUCCESS (ad_status activityData) |} w.

(** Modelled from the spec: [utils/notifications], with
    [createPaymentSuccessNotification] and
    [createPaymentFailedNotification], is not among the sources.  The
    helper emits one notification reflecting the outcome; whether its
    write can reject is left to the environment ([notifyFault]). *)
Definition createPaymentNotification (success : bool) (userId amount : Z)
    (cardLast4 : string) : Tx unit := λ env s,
  if notifyFault env
  then (Throw NotificationError, s)
  else (Ok tt, (add_notification
                  {| ntf_userId := userId; ntf_success := success;
                     ntf_amount := amount; ntf_last4 := cardLast4 |} s.1, s.2)).

Definition createPaymentSuccessNotification := createPaymentNotification true.

Definition createPaymentFailedNotification := createPaymentNotification false.

(** ** [processPayment] *)

(** The callback handed to [prisma.$transaction]. *)
Definition processPaymentTx (paymentId : string) (status : PaymentStatus)
    (cardLast4 : string) (userId amount : Z) (ext : option string) : Tx unit :=
  updatedPayment ← tx_payment_update paymentId status ext;
  if decide (status = SUCCESS) then
    stmts ← tx_statement_findMany (pay_cardId updatedPayment);
    _ ← applyToStatements amount stmts;
    _ ← createPaymentSuccessNotification userId amount cardLast4;
    tx_lift (logActivity userId (createActivityData_payment amount "bank" SUCCESS))
  else
    _ ← createPaymentFailedNotification userId amount cardLast4;
    tx_lift (logActivity userId (createActivityData_payment amount "bank" FAILED)).

(** What a rollback restores: the tables written through the
    transaction client. *)
Definition rollback (before after : World) : World :=
  set_payments (payments before) (set_statements (statements before) after).

(** [prisma.$transaction]: the callback runs on the transaction client;
    the commit is one more storage operation; when the callback or the
    commit throws, the writes of the transaction are undone and the
    error is thrown on. *)
Definition transaction {A} (body : Tx A) (env : Env) (w : World)
    : Result A * World :=
  match body env (w, 0%nat) with
  | (Ok a, (w', n)) =>
      if decide (txFault env = Some n)
      then (Throw StorageError, rollback w w')
      else (Ok a, w')
  | (Throw e, (w', _)) => (Throw e, rollback w w')
  end.

Definition processPayment (paymentId : string) (status : PaymentStatus)
    (cardLast4 : string) (userId amount : Z) (ext : option string)
    (env : Env) (w : World) : Result unit * World :=
  match transaction (processPaymentTx paymentId status cardLast4 userId amount ext)
          env w with
  | (Ok _, w') => (Ok tt, add_log (LogPaymentProcessed paymentId status) w')
  | (Throw e, w') => (Throw e, add_log (LogErrorProcessing paymentId e) w')
  end.

(** ** The handlers *)

Record PaymentData := mkPaymentData {
  r_paymentId : string;
  r_amount : Z;
  r_method : string;
  r_status : option string;
  r_newBalance : Z
}.

(** What a handler answers: a JSON body with its HTTP code, the plain
    acknowledgement of the webhook, the 400 answer of [validateBody], or
    an error handed to [next]. *)
Inductive Response :=
| Json (code : nat) (data : PaymentData) (message : string)
| Acknowledged (message : string)
| InvalidRequest
| Failed (e : Error).

(** The task handed to [setTimeout] by the creation handler. *)
Record Deferred := mkDeferred {
  d_paymentId : string;
  d_finalStatus : PaymentStatus;
  d_last4 : string;
  d_userId : Z;
  d_amount : Z
}.

(** The deferred task: [processPayment], whose error is caught and
    logged. *)
Definition runDeferred (d : Deferred) (env : Env) (w : World) : World :=
  match processPayment (d_paymentId d) (d_finalStatus d) (d_last4 d)
          (d_userId d) (d_amount d) None env w with
  | (Ok _, w') => w'
  | (Throw e, w') => add_log (LogPaymentProcessingError e) w'
  end.

Record CreateBody := mkCreateBody {
  cardId : Z;
  amount : Z;
  method : string
}.

Record CreateRequest := mkCreateRequest {
  req_userId : Z;
  req_body : CreateBody;
  req_idempotencyHeader : option string
}.

(** [createPaymentSchema] *)
Definition createPaymentSchema (b : CreateBody) : bool :=
  bool_decide (0 < cardId b)
  && bool_decide (0 < amount b)
  && bool_decide (amount b ≤ 1000000)
  && bool_decide (method b ∈ ["bank"; "card"; "instant"]).

(** [Number(x) || 0] *)
Definition orZero (x : Z) : Z := if decide (x = 0) then 0 else x.

(** [statements.reduce((sum, statement) => sum + (Number(statement.balance) || 0), 0)]
    on whole numbers; [sumBalancesOnDoubles] below is the sum on
    doubles. *)
Definition sumBalances (stmts : list (Z * Statement)) : Z :=
  foldl (λ sum statement, sum + orZero (balance statement.2)) 0 stmts.

(** The outstanding balance of a card as both handlers compute it. *)
Definition outstandingBalance (cardId : Z) (w : World) : Z :=
  sumBalances (statement_findMany (Some cardId) (statements w)).

(** The sum read again on the idempotent path, from
    [statement.findMany({ where: { cardId, isPaid: false } })] without
    an order. *)
Definition freshOutstanding (cardId : Z) (w : World) : Z :=
  sumBalances (filter (isUnpaidOf (Some cardId)) (map_to_list (statements w))).

(** [prisma.card.findFirst({ where: { id: cardId, userId } })] *)
Definition card_findFirst (cardId userId : Z) (w : World) : option Card :=
  match cards w !! cardId with
  | Some c => if decide (card_userId c = userId) then Some c else None
  | None => None
  end.

(** [prisma.payment.findFirst({ where: { idempotencyKey } })]: throws
    when the model has no such field. *)
Definition payment_findFirst_byKey (key : string) (w : World)
    : Result (option (string * Payment)) :=
  if hasIdempotencyKey w
  then Ok (head (filter (λ row, idempotencyKey row.2 = Some key)
                   (map_to_list (payments w))))
  else Throw UnknownFieldError.

(** [prisma.payment.create]: the client generates the id, which is new. *)
Definition payment_create (p : Payment) (w : World) : string * World :=
  let id := fresh (dom (payments w)) in
  (id, set_payments (<[id := p]> (payments w)) w).

(** The [data] of [prisma.payment.create] in the creation handler; the
    line that would store the idempotency key is commented out in the
    source. *)
Definition pendingPayment (req : CreateRequest) : Payment :=
  let b := req_body req in
  {| pay_cardId := Some (cardId b); pay_userId := req_userId req;
     pay_amount := amount b; pay_method := method b;
     pay_status := PENDING; externalId := None;
     idempotencyKey := None |}.

(** The part of the creation handler after the idempotency check. *)
Definition createPending (req : CreateRequest) (card : Card) (outstanding : Z)
    (env : Env) (w : World) : Response * World * option Deferred :=
  let b := req_body req in
  let payment := pendingPayment req in
  let '(id, w1) := payment_create payment w in
  let finalStatus := if randomSuccess env then SUCCESS else FAILED in
  let task := {| d_paymentId := id; d_finalStatus := finalStatus;
                 d_last4 := card_last4 card; d_userId := req_userId req;
                 d_amount := amount b |} in
  (Json 201
     {| r_paymentId := id; r_amount := pay_amount payment;
        r_method := pay_method payment;
        r_status := normalizeStatus (Some (status_string (pay_status payment)));
        r_newBalance := outstanding |}
     "Payment initiated successfully",
   add_log (LogPaymentCreated id (cardId b) (req_userId req)) w1,
   Some task).

(** [router.post('/')] behind [authenticate] and
    [validateBody(createPaymentSchema)]; an error thrown in the handler
    goes to [next].  The text of the validation error is shortened: the
    source renders both amounts into it. *)
Definition createPaymentHandler (req : CreateRequest) (env : Env) (w : World)
    : Response * World * option Deferred :=
  let b := req_body req in
  if negb (createPaymentSchema b) then (InvalidRequest, w, None) else
  match card_findFirst (cardId b) (req_userId req) w with
  | None => (Failed (NotFoundError "Card not found"), w, None)
  | Some card =>
      if negb (bool_decide (card_status card = ACTIVE))
      then (Failed (ForbiddenError "Card is not active"), w, None)
      else
        let outstanding := outstandingBalance (cardId b) w in
        if bool_decide (amount b > outstanding)
        then (Failed (ValidationError
                        "Payment amount cannot exceed outstanding balance"),
              w, None)
        else
          match readIdempotencyKey (req_idempotencyHeader req) with
          | None => createPending req card outstanding env w
          | Some key =>
              match payment_findFirst_byKey key w with
              | Ok (Some (id, existing)) =>
                  (Json 200
                     {| r_paymentId := id; r_amount := pay_amount existing;
                        r_method := pay_method existing;
                        r_status := normalizeStatus
                                      (Some (status_string (pay_status existing)));
                        r_newBalance := freshOutstanding (cardId b) w |}
                     "Idempotent: returning existing payment",
                   w, None)
              | Ok None => createPending req card outstanding env w
              | Throw _ =>
                  createPending req card outstanding env
                    (add_log LogIdempotencySkipped w)
              end
          end
  end.

Record WebhookBody := mkWebhookBody {
  wb_paymentId : string;
  wb_status : string;
  wb_externalId : option string
}.

(** [webhookSchema]: the status is one of the two final ones. *)
Definition webhookSchema (b : WebhookBody) : option PaymentStatus :=
  if decide (wb_status b = "SUCCESS") then Some SUCCESS
  else if decide (wb_status b = "FAILED") then Some FAILED
  else None.

(** The relation [card] loaded with a payment ([include: { card }]):
    null when the payment has no card id. *)
Definition payment_card (p : Payment) (w : World) : option Card :=
  match pay_cardId p with
  | None => None
  | Some c => cards w !! c
  end.

(** [router.post('/webhook')] behind [validateBody(webhookSchema)]. *)
Definition webhookHandler (b : WebhookBody) (env : Env) (w : World)
    : Response * World :=
  match webhookSchema b with
  | None => (InvalidRequest, w)
  | Some status =>
      match payments w !! wb_paymentId b with
      | None => (Failed (NotFoundError "Payment not found"), w)
      | Some payment =>
          match payment_card payment w with
          | None => (Failed TypeError, w)
          | Some card =>
              match processPayment (wb_paymentId b) status (card_last4 card)
                      (pay_userId payment) (pay_amount payment)
                      (wb_externalId b) env w with
              | (Ok _, w') => (Acknowledged "Webhook processed successfully", w')
              | (Throw e, w') => (Failed e, w')
              end
          end
      end
  end.

(** ** Sample data *)

Definition jan10 : Z := 1736467200000.

Definition feb10 : Z := 1739145600000.

Definition sampleCards : gmap Z Card :=
  {[ 1 := {| card_userId := 7; card_status := ACTIVE; card_last4 := "4242" |} ]}.

Definition samplePayment (a : Z) (st : PaymentStatus) : Payment :=
  {| pay_cardId := Some 1; pay_userId := 7; pay_amount := a;
     pay_method := "bank"; pay_status := st; externalId := None;
     idempotencyKey := None |}.

Definition sampleWorld (stmts : gmap Z Statement)
    (pays : gmap string Payment) : World :=
  {| cards := sampleCards; statements := stmts; payments := pays;
     notifications := []; activities := []; hasIdempotencyKey := true;
     logs := [] |}.

(** Jan-10 with balance 300 and Feb-10 with balance 500; the later
    statement has the smaller id. *)
Definition twoStatements : gmap Z Statement :=
  {[ 1 := {| stmt_cardId := 1; dueDate := feb10; balance := 500; isPaid := false |};
     2 := {| stmt_cardId := 1; dueDate := jan10; balance := 300; isPaid := false |} ]}.

Definition oneStatement (b : Z) : gmap Z Statement :=
  {[ 1 := {| stmt_cardId := 1; dueDate := jan10; balance := b; isPaid := false |} ]}.

(** ** Definitions for the statements of the properties *)

(** The statement table after the loop, as a function of the table
    before it. *)
Fixpoint settle (remainingAmount : Z) (stmts : list (Z * Statement))
    (m : gmap Z Statement) : gmap Z Statement :=
  match stmts with
  | [] => m
  | (id, statement) :: rest =>
      if remainingAmount <=? 0 then m
      else if remainingAmount >=? balance statement then
        settle (remainingAmount - balance statement) rest (alter payOff id m)
      else
        settle 0 rest
          (alter (setBalance (balance statement - remainingAmount)) id m)
  end.

(** The sum of a weight over a list of rows. *)
Definition sumOver (g : Z * Statement → Z) (l : list (Z * Statement)) : Z :=
  foldr (λ r acc, g r + acc) 0 l.

(** The weight of a row in the outstanding balance of a card. *)
Definition unpaidWeight (cardId : Z) (r : Z * Statement) : Z :=
  if decide (isUnpaidOf (Some cardId) r) then balance r.2 else 0.

(** Every statement of the list is a row of the table. *)
Definition rowsOf (stmts : list (Z * Statement)) (m : gmap Z Statement) : Prop :=
  ∀ id row, (id, row) ∈ stmts → m !! id = Some row.

(** The table of statements after a resolution of payment [p] to
    [status] with [amount] that commits. *)
Definition statementsAfter (status : PaymentStatus) (amount : Z) (p : Payment)
    (m : gmap Z Statement) : gmap Z Statement :=
  if decide (status = SUCCESS)
  then settle amount (statement_findMany (pay_cardId p) m) m
  else m.

(** The environment with another storage fault. *)
Definition withTxFault (f : option nat) (env : Env) : Env :=
  {| txFault := f; activityFault := activityFault env;
     notifyFault := notifyFault env; randomSuccess := randomSuccess env |}.

(** A computation on the transaction client follows its fault-free run
    up to the operation at which the storage layer fails: when it
    completes, the fault-free run completes in the same way and the
    failing operation was not among those issued; when it throws, the
    fault-free run throws the same error or the error is the storage
    fault. *)
Definition followsFaultFree {A} (m : Tx A) : Prop :=
  ∀ env s,
    match m env s with
    | (Ok r, s') =>
        m (withTxFault None env) s = (Ok r, s')
        ∧ (s.2 ≤ s'.2)%nat
        ∧ ∀ k, txFault env = Some k → (k < s.2 ∨ s'.2 ≤ k)%nat
    | (Throw e, s') =>
        (∃ s0, m (withTxFault None env) s = (Throw e, s0))
        ∨ e = StorageError
    end.

(** The sum of the balances of all statements. *)
Definition totalBalance (w : World) : Z :=
  sumOver (λ r, balance r.2) (map_to_list (statements w)).

(** No balance below 0. *)
Definition nonNegative (m : gmap Z Statement) : Prop :=
  ∀ id row, m !! id = Some row → 0 ≤ balance row.

(** [isPaid == true] implies [balance == 0], on every row. *)
Definition statementInvariant (m : gmap Z Statement) : Prop :=
  ∀ id row, m !! id = Some row → isPaid row = true → balance row = 0.

(** The environment with another outcome of the audit write. *)
Definition withActivityFault (f : bool) (env : Env) : Env :=
  {| txFault := txFault env; activityFault := f;
     notifyFault := notifyFault env; randomSuccess := randomSuccess env |}.

(** Two worlds with the same tables and the same notifications. *)
Definition sameTables (w1 w2 : World) : Prop :=
  payments w1 = payments w2 ∧ statements w1 = statements w2
  ∧ cards w1 = cards w2 ∧ notifications w1 = notifications w2.

(** The payment that the idempotency guard of the creation handler
    finds for a request, if any: none without a key, and none when the
    lookup throws. *)
Definition idempotentMatch (req : CreateRequest) (w : World)
    : option (string * Payment) :=
  match readIdempotencyKey (req_idempotencyHeader req) with
  | Some key =>
      match payment_findFirst_byKey key w with
      | Ok r => r
      | Throw _ => None
      end
  | None => None
  end.

(** The answers that carry a payment; every other answer of the
    creation handler is a rejection. *)
Definition accepted (r : Response) : bool :=
  match r with
  | Json _ _ _ => true
  | _ => false
  end.

(** ** The arithmetic on doubles

    The balance of a statement and the amount of a payment as the
    source computes with them.  A decimal literal stands for the
    nearest double, as in JavaScript. *)

Record StatementOnDoubles := mkStatementOnDoubles {
  sd_balance : float;
  sd_isPaid : bool
}.

(** [Number(x) || 0]: zero and NaN are falsy. *)
Definition orZeroOnDoubles (x : float) : float :=
  if PrimFloat.is_nan x || PrimFloat.eqb x 0%float then 0%float else x.

(** [statements.reduce((sum, statement) => sum + (Number(statement.balance) || 0), 0)] *)
Definition sumBalancesOnDoubles (stmts : list StatementOnDoubles) : float :=
  foldl (λ sum statement,
           PrimFloat.add sum (orZeroOnDoubles (sd_balance statement)))
        0%float stmts.

(** [amount > outstandingBalance], the check of the creation handler. *)
Definition exceedsOnDoubles (amount outstandingBalance : float) : bool :=
  PrimFloat.ltb outstandingBalance amount.

(** The [for] loop of [processPayment] over the unpaid statements in
    the order of their due dates: the rows as the updates leave them. *)
Fixpoint applyToStatementsOnDoubles (remainingAmount : float)
    (stmts : list StatementOnDoubles) : list StatementOnDoubles :=
  match stmts with
  | [] => []
  | statement :: rest =>
      if PrimFloat.leb remainingAmount 0%float then stmts
      else if PrimFloat.leb (sd_balance statement) remainingAmount then
        {| sd_balance := 0%float; sd_isPaid := true |}
          :: applyToStatementsOnDoubles
               (PrimFloat.sub remainingAmount (sd_balance statement)) rest
      else
        {| sd_balance := PrimFloat.sub (sd_balance statement) remainingAmount;
           sd_isPaid := sd_isPaid statement |}
          :: applyToStatementsOnDoubles 0%float rest
  end.

(** Unpaid statements of 0.1, 0.2 and 0.3, in the order of their due
    dates. *)
Definition fractionalStatements : list StatementOnDoubles :=
  [ {| sd_balance := 0.1%float; sd_isPaid := false |};
    {| sd_balance := 0.2%float; sd_isPaid := false |};
    {| sd_balance := 0.3%float; sd_isPaid := false |} ].

(** ** Expiration times

    The second text carried by [backend/src/utils/activityLogger.ts]
    holds the token utilities.  Their errors are plain [Error]s told
    apart by their message. *)

Inductive AuthError :=
| InvalidExpirationFormat (timeString : string)
| InvalidTimeUnit (unit : Ascii.ascii)
| FailedToCreateRefreshToken
| FailedToRevokeRefreshTokens.

Inductive Outcome (A : Type) :=
| Returns (a : A)
| Raises (e : AuthError).

Arguments Returns {A} a.
Arguments Raises {A} e.

(** [\d] *)
Definition is_digit (c : Ascii.ascii) : bool :=
  let n := Ascii.nat_of_ascii c in ((48 <=? n) && (n <=? 57))%nat.

(** [[smhd]] *)
Definition is_unit (c : Ascii.ascii) : bool :=
  bool_decide (c ∈ ["s"; "m"; "h"; "d"]%char).

Definition digit_value (c : Ascii.ascii) : Z :=
  Z.of_nat (Ascii.nat_of_ascii c) - 48.

(** [parseInt(digits, 10)] on a string of decimal digits, most
    significant digit first; the number is exact. *)
Fixpoint parseDigits (acc : Z) (digits : string) : Z :=
  match digits with
  | EmptyString => acc
  | String c r => parseDigits (10 * acc + digit_value c) r
  end.

(** The longest run of digits at the start of a string, and the rest. *)
Fixpoint spanDigits (s : string) : string * string :=
  match s with
  | EmptyString => (EmptyString, EmptyString)
  | String c r =>
      if is_digit c
      then let '(digits, rest) := spanDigits r in (String c digits, rest)
      else (EmptyString, s)
  end.

(** [timeString.match(/^(\d+)([smhd])$/)]: the two groups of the match,
    or nothing.  No unit letter is a digit, so the first group is the
    longest run of digits at the start, which must not be empty, and the
    second the one character that follows it and ends the string. *)
Definition matchExpiration (timeString : string) : option (string * Ascii.ascii) :=
  match spanDigits timeString with
  | (String c digits, String u EmptyString) =>
      if is_unit u then Some (String c digits, u) else None
  | _ => None
  end.

(** [parseExpirationTime]: milliseconds. *)
Definition parseExpirationTime (timeString : string) : Outcome Z :=
  match matchExpiration timeString with
  | None => Raises (InvalidExpirationFormat timeString)
  | Some (digits, unit) =>
      let value := parseDigits 0 digits in
      if decide (unit = "s"%char) then Returns (value * 1000)
      else if decide (unit = "m"%char) then Returns (value * 60 * 1000)
      else if decide (unit = "h"%char) then Returns (value * 60 * 60 * 1000)
      else if decide (unit = "d"%char) then Returns (value * 24 * 60 * 60 * 1000)
      else Raises (InvalidTimeUnit unit)
  end.



(** ** Refresh tokens *)

(** Row of table [RefreshToken]; the key of the table is the serial id,
    and the column [token] carries a unique index. *)
Record RefreshToken := mkRefreshToken {
  rt_token : string;
  rt_userId : Z;
  rt_expiresAt : Z
}.

(** The tables the token utilities reach: the ids of table [User], to
    which [RefreshToken.userId] is a foreign key, and the refresh
    tokens. *)
Record AuthStore := mkAuthStore {
  users : gset Z;
  refreshTokens : gmap Z RefreshToken
}.

Definition set_refreshTokens (m : gmap Z RefreshToken) (st : AuthStore)
    : AuthStore :=
  {| users := users st; refreshTokens := m |}.

(** [where: { token }] *)
Definition hasToken (token : string) (row : Z * RefreshToken) : Prop :=
  rt_token row.2 = token.

#[global] Instance hasToken_dec token row : Decision (hasToken token row).
Proof. unfold hasToken. apply _. Defined.

(** [prisma.refreshToken.findUnique({ where: { token } })] *)
Definition refreshToken_findUnique (token : string)
    (m : gmap Z RefreshToken) : option (Z * RefreshToken) :=
  head (filter (hasToken token) (map_to_list m)).

(** [prisma.refreshToken.create]: the sequence yields an id that is new;
    the write is rejected when the storage layer fails, when the user
    does not exist or when the token is already in the table. *)
Definition refreshToken_create (fault : bool) (row : RefreshToken)
    (st : AuthStore) : option AuthStore :=
  if fault then None
  else if negb (bool_decide (rt_userId row ∈ users st)) then None
  else if bool_decide (is_Some (refreshToken_findUnique (rt_token row)
                                  (refreshTokens st))) then None
  else Some (set_refreshTokens
               (<[fresh (dom (refreshTokens st)) := row]> (refreshTokens st)) st).

(** [createRefreshToken].  [expiresIn] is the configured life time,
    [token] the outcome of [generateRefreshToken] (80 random hexadecimal
    digits), [now] the clock and [fault] whether the storage layer
    rejects the write.  The life time is parsed outside the [try]. *)
Definition createRefreshToken (expiresIn token : string) (now : Z)
    (fault : bool) (userId : Z) (st : AuthStore) : Outcome string * AuthStore :=
  match parseExpirationTime expiresIn with
  | Raises e => (Raises e, st)
  | Returns expiresInMs =>
      let expiresAt := now + expiresInMs in
      match refreshToken_create fault
              {| rt_token := token; rt_userId := userId;
                 rt_expiresAt := expiresAt |} st with
      | Some st' => (Returns token, st')
      | None => (Raises FailedToCreateRefreshToken, st)
      end
  end.

(** [validateRefreshToken].  [fault = Some k]: the storage layer fails
    at the [k]-th operation of the call, the lookup being operation 0
    and the deletion of an expired token operation 1.  Every error is
    caught and answered with null. *)
Definition validateRefreshToken (token : string) (now : Z)
    (fault : option nat) (st : AuthStore) : option Z * AuthStore :=
  if decide (fault = Some 0%nat) then (None, st)
  else
    match refreshToken_findUnique token (refreshTokens st) with
    | None => (None, st)
    | Some (id, refreshToken) =>
        if decide (rt_expiresAt refreshToken < now) then
          if decide (fault = Some 1%nat) then (None, st)
          else (None, set_refreshTokens (delete id (refreshTokens st)) st)
        else (Some (rt_userId refreshToken), st)
    end.

(** [revokeRefreshToken]: deleting a token that is not there is an error
    of the client, swallowed like every other. *)
Definition revokeRefreshToken (token : string) (fault : bool)
    (st : AuthStore) : AuthStore :=
  if fault then st
  else
    match refreshToken_findUnique token (refreshTokens st) with
    | None => st
    | Some (id, _) => set_refreshTokens (delete id (refreshTokens st)) st
    end.

(** [revokeAllUserRefreshTokens] *)
Definition revokeAllUserRefreshTokens (userId : Z) (fault : bool)
    (st : AuthStore) : Outcome unit * AuthStore :=
  if fault then (Raises FailedToRevokeRefreshTokens, st)
  else (Returns tt,
        set_refreshTokens
          (filter (λ row, rt_userId row.2 ≠ userId) (refreshTokens st)) st).

(** [cleanupExpiredTokens]: [deleteMany({ where: { expiresAt: { lt: now } } })] *)
Definition cleanupExpiredTokens (now : Z) (fault : bool) (st : AuthStore)
    : AuthStore :=
  if fault then st
  else set_refreshTokens
         (filter (λ row, ¬ rt_expiresAt row.2 < now) (refreshTokens st)) st.

(** ** Access tokens *)

Record TokenPayload := mkTokenPayload {
  tp_userId : Z;
  tp_email : string;
  tp_name : string;
  tp_isAdmin : bool
}.

(** The values a claim of a verified token can have.  Numbers are
    integers; [JOther] stands for arrays and objects. *)
Inductive JsValue :=
| JUndefined
| JNull
| JBool (b : bool)
| JNumber (n : Z)
| JString (s : string)
| JOther.

(** What [jwt.verify] does with a token: it throws (bad signature,
    expired, malformed), or returns the payload, a string or an
    object. *)
Inductive Verified :=
| VerifyThrows
| VerifiedString (s : string)
| VerifiedObject (obj : gmap string JsValue).

(** [obj[key]] *)
Definition property (obj : gmap string JsValue) (key : string) : JsValue :=
  default JUndefined (obj !! key).

(** [a ?? b] *)
Definition nullish (a b : JsValue) : JsValue :=
  match a with
  | JUndefined | JNull => b
  | _ => a
  end.

(** [/^\d+$/.test(s)] *)
Fixpoint allDigits (s : string) : bool :=
  match s with
  | EmptyString => false
  | String c EmptyString => is_digit c
  | String c r => is_digit c && allDigits r
  end.

(** The object handed to [jwt.sign]. *)
Definition payloadObject (payload : TokenPayload) : gmap string JsValue :=
  {[ "userId" := JNumber (tp_userId payload);
     "email" := JString (tp_email payload);
     "name" := JString (tp_name payload);
     "isAdmin" := JBool (tp_isAdmin payload) ]}.

(** [generateAccessToken]: an error of [jwt.sign] is logged and thrown
    on. *)
Definition generateAccessToken (jwt_sign : gmap string JsValue → option string)
    (payload : TokenPayload) : option string :=
  jwt_sign (payloadObject payload).

(** [verifyAccessToken] *)
Definition verifyAccessToken (jwt_verify : string → Verified) (token : string)
    : option TokenPayload :=
  match jwt_verify token with
  | VerifyThrows => None
  | VerifiedString _ => None
  | VerifiedObject obj =>
      let userIdRaw := nullish (property obj "userId") (property obj "sub") in
      let emailRaw := property obj "email" in
      let nameRaw := property obj "name" in
      let isAdminRaw := property obj "isAdmin" in
      let userId :=
        match userIdRaw with
        | JNumber n => Some n
        | JString s => if allDigits s then Some (parseDigits 0 s) else None
        | _ => None
        end in
      match userId with
      | None | Some 0 => None
      | Some userId =>
          match emailRaw, nameRaw with
          | JString email, JString name =>
              let isAdmin := match isAdminRaw with
                             | JBool b => b
                             | _ => false
                             end in
              Some {| tp_userId := userId; tp_email := email;
                      tp_name := name; tp_isAdmin := isAdmin |}
          | _, _ => None
          end
      end
  end.

(** ** Reading payments *)

(** [prisma.payment.findFirst({ where: { id: paymentId, userId } })] *)
Definition payment_findFirst (paymentId : string) (userId : Z) (w : World)
    : option Payment :=
  match payments w !! paymentId with
  | Some p => if decide (pay_userId p = userId) then Some p else None
  | None => None
  end.

(** [x || null] on a nullable text *)
Definition orNull (x : option string) : option string :=
  match x with
  | None | Some EmptyString => None
  | Some s => Some s
  end.

(** The [data] of the detail answer, without the card type and the
    time stamps. *)
Record PaymentDetail := mkPaymentDetail {
  pd_id : string;
  pd_amount : Z;
  pd_method : string;
  pd_status : string;
  pd_last4 : option string;
  pd_externalId : option string
}.

(** [router.get('/:id')] behind [authenticate]: the answer, or the error
    handed to [next]. *)
Definition getPayment (paymentId : string) (userId : Z) (w : World)
    : Result PaymentDetail :=
  match payment_findFirst paymentId userId w with
  | None => Throw (NotFoundError "Payment not found")
  | Some payment =>
      Ok {| pd_id := paymentId; pd_amount := pay_amount payment;
            pd_method := pay_method payment;
            pd_status := toLowerCase (status_string (pay_status payment));
            pd_last4 := card_last4 <$> payment_card payment w;
            pd_externalId := orNull (externalId payment) |}
  end.

Record Receipt := mkReceipt {
  rc_paymentId : string;
  rc_amount : Z;
  rc_method : string;
  rc_status : string;
  rc_cardLast4 : option string;
  rc_externalId : option string;
  rc_message : string
}.

(** [router.get('/:id/receipt')] behind [authenticate]. *)
Definition getReceipt (paymentId : string) (userId : Z) (w : World)
    : Result Receipt :=
  match payment_findFirst paymentId userId w with
  | None => Throw (NotFoundError "Payment not found")
  | Some payment =>
      Ok {| rc_paymentId := paymentId; rc_amount := pay_amount payment;
            rc_method := pay_method payment;
            rc_status := toLowerCase (status_string (pay_status payment));
            rc_cardLast4 := card_last4 <$> payment_card payment w;
            rc_externalId := orNull (externalId payment);
            rc_message := if decide (pay_status payment = SUCCESS)
                          then "Payment processed successfully"
                          else "Payment not completed" |}
  end.

(** An entry of the list answer, without the card type and the time
    stamps. *)
Record ListItem := mkListItem {
  li_id : string;
  li_amount : Z;
  li_method : string;
  li_status : option string;
  li_last4 : string
}.

(** The function mapped over the rows of a page by [router.get('/')]:
    it reads [payment.card.last4] without a check for null. *)
Definition listItem (w : World) (row : string * Payment) : Result ListItem :=
  match payment_card row.2 w with
  | None => Throw TypeError
  | Some card =>
      Ok {| li_id := row.1; li_amount := pay_amount row.2;
            li_method := pay_method row.2;
            li_status := normalizeStatus (Some (status_string (pay_status row.2)));
            li_last4 := card_last4 card |}
  end.

(** [payments.map(payment => ...)]: the first error ends the map. *)
Fixpoint listItems (w : World) (page : list (string * Payment))
    : Result (list ListItem) :=
  match page with
  | [] => Ok []
  | row :: rest =>
      match listItem w row with
      | Throw e => Throw e
      | Ok item =>
          match listItems w rest with
          | Throw e => Throw e
          | Ok items => Ok (item :: items)
          end
      end
  end.

(** ** Verification of a gateway payment *)

(** [verifyRazorpaySignature]; [hmac] is the keyed digest
    [crypto.createHmac('sha256', key_secret)] rendered in hexadecimal. *)
Definition verifyRazorpaySignature (hmac : string → string)
    (razorpayOrderId razorpayPaymentId razorpaySignature : string) : bool :=
  let body := razorpayOrderId +:+ "|" +:+ razorpayPaymentId in
  bool_decide (hmac body = razorpaySignature).

(** The payment as the gateway reports it; the amount is in paise. *)
Record GatewayPayment := mkGatewayPayment {
  gp_amount : Z;
  gp_status : string
}.

(** The two reads of the gateway; a read that yields nothing throws. *)
Record Gateway := mkGateway {
  payments_fetch : string → option GatewayPayment;
  orders_fetch : string → option unit
}.

Record VerifyBody := mkVerifyBody {
  razorpay_order_id : option string;
  razorpay_payment_id : option string;
  razorpay_signature : option string
}.

Record VerifiedPayment := mkVerifiedPayment {
  vp_id : string;
  vp_amount : Z;
  vp_method : string;
  vp_status : string;
  vp_razorpayPaymentId : string;
  vp_razorpayOrderId : string
}.

Inductive VerifyResponse :=
| VerifyOk (payment : VerifiedPayment) (message : string)
| VerifyStatus (code : nat) (message : string).

(** [!x] on an optional text of the body *)
Definition missing (x : option string) : bool :=
  match x with
  | None | Some EmptyString => true
  | Some _ => false
  end.

(** [prisma.card.findFirst({ where: { userId } })] *)
Definition card_findFirst_ofUser (userId : Z) (w : World) : option (Z * Card) :=
  head (filter (λ row, card_userId row.2 = userId) (map_to_list (cards w))).

(** [userCard?.id || null] *)
Definition cardIdOrNull (userCard : option (Z * Card)) : option Z :=
  match userCard with
  | None => None
  | Some (id, _) => if decide (id = 0) then None else Some id
  end.

(** [userCard?.last4 || 'N/A'] *)
Definition last4OrNA (userCard : option (Z * Card)) : string :=
  match userCard with
  | None => "N/A"
  | Some (_, card) =>
      match card_last4 card with
      | EmptyString => "N/A"
      | s => s
      end
  end.

(** [router.post('/razorpay/verify')].  The route has no [authenticate]:
    [hasAuthorization] tells whether the request carries an
    authorization header, [reqUserId] is [req.userId].  [hmac] and [gw]
    stand for the digest and the gateway, [createFault] tells whether
    [prisma.payment.create] rejects.  The amount in rupees is the
    integer quotient, exact when the paise are a multiple of 100.  The
    columns [razorpayOrderId] and [razorpayPaymentId] and the lines of
    the logger are left out.  Every error is answered with 500. *)
Definition razorpayVerify (hmac : string → string) (gw : Gateway)
    (hasAuthorization : bool) (reqUserId : Z) (body : VerifyBody)
    (createFault : bool) (env : Env) (w : World) : VerifyResponse * World :=
  let userId := if hasAuthorization then reqUserId else 1 in
  if missing (razorpay_order_id body) || missing (razorpay_payment_id body)
     || missing (razorpay_signature body)
  then (VerifyStatus 400 "Missing payment verification data", w)
  else
    let order_id := default EmptyString (razorpay_order_id body) in
    let payment_id := default EmptyString (razorpay_payment_id body) in
    let signature := default EmptyString (razorpay_signature body) in
    let isValidSignature :=
      verifyRazorpaySignature hmac order_id payment_id signature in
    match payments_fetch gw payment_id, orders_fetch gw order_id with
    | Some payment, Some _ =>
        let userCard := card_findFirst_ofUser userId w in
        if createFault
        then (VerifyStatus 500 "Payment verification failed", w)
        else
          let '(id, w1) :=
            payment_create
              {| pay_cardId := cardIdOrNull userCard; pay_userId := userId;
                 pay_amount := gp_amount payment / 100;
                 pay_method := "razorpay"; pay_status := SUCCESS;
                 externalId := Some payment_id;
                 idempotencyKey := None |} w in
          let w2 :=
            logActivity userId
              (createActivityData_payment (gp_amount payment / 100)
                 "razorpay" SUCCESS) env w1 in
          match createPaymentSuccessNotification userId
                  (gp_amount payment / 100) (last4OrNA userCard)
                  env (w2, 0%nat) with
          | (Ok _, (w3, _)) =>
              (VerifyOk
                 {| vp_id := id; vp_amount := gp_amount payment / 100;
                    vp_method := "razorpay"; vp_status := "SUCCESS";
                    vp_razorpayPaymentId := payment_id;
                    vp_razorpayOrderId := order_id |}
                 "Payment verified successfully", w3)
          | (Throw _, (w3, _)) =>
              (VerifyStatus 500 "Payment verification failed", w3)
          end
    | _, _ => (VerifyStatus 500 "Payment verification failed", w)
    end.

(** ** Sample data of the token store *)

(** Two tokens, of users 7 and 8, that expire at 5000 and at 9000. *)
Definition sampleTokens : gmap Z RefreshToken :=
  {[ 1 := {| rt_token := "aa"; rt_userId := 7; rt_expiresAt := 5000 |};
     2 := {| rt_token := "bb"; rt_userId := 8; rt_expiresAt := 9000 |} ]}.

Definition sampleStore : AuthStore :=
  {| users := {[ 7; 8 ]}; refreshTokens := sampleTokens |}.

(** ** Definitions for the statements of the further properties *)

(** The unique index on [RefreshToken.token]. *)
Definition uniqueTokens (m : gmap Z RefreshToken) : Prop :=
  ∀ i j r1 r2,
    m !! i = Some r1 → m !! j = Some r2 → rt_token r1 = rt_token r2 → i = j.

(** * Properties *)

(** ** The query for the unpaid statements of a card *)

#[global] Instance byDueDate_trans : Transitive byDueDate.
Proof. intros a b c; unfold byDueDate; lia. Qed.

#[global] Instance byDueDate_total : Total byDueDate.
Proof. intros a b; unfold byDueDate; lia. Qed.

Lemma findMany_elem cid (m : gmap Z Statement) id row :
  (id, row) ∈ statement_findMany cid m ↔
  m !! id = Some row ∧ isUnpaidOf cid (id, row).
Proof.
  unfold statement_findMany.
  rewrite merge_sort_Permutation, list_elem_of_filter, elem_of_map_to_list.
  tauto.
Qed.

Lemma findMany_NoDup cid (m : gmap Z Statement) :
  NoDup (statement_findMany cid m).*1.
Proof.
  unfold statement_findMany.
  rewrite merge_sort_Permutation.
  apply (sublist_NoDup _ ((map_to_list m).*1)).
  - apply NoDup_fst_map_to_list.
  - apply fmap_sublist, sublist_filter.
Qed.



(** ** Running the operations of the transaction client *)

Lemma tx_bind_run {A B} (m : Tx A) (f : A → Tx B) env s :
  (m ≫= f) env s =
  match m env s with
  | (Ok a, s') => f a env s'
  | (Throw e, s') => (Throw e, s')
  end.
Proof. reflexivity. Qed.

Lemma insert_as_alter {K} `{Countable K} {V} (f : V → V) (m : gmap K V) i x :
  m !! i = Some x → <[i := f x]> m = alter f i m.
Proof.
  intros Hx. apply map_eq; intros j.
  destruct (decide (i = j)) as [<- | Hne].
  - by rewrite lookup_insert_eq, lookup_alter_eq, Hx.
  - by rewrite lookup_insert_ne, lookup_alter_ne.
Qed.

Lemma tx_statement_update_run id data env s :
  tx_statement_update id data env s =
  if decide (txFault env = Some s.2)
  then (Throw StorageError, (s.1, S s.2))
  else match statements s.1 !! id with
       | None => (Throw RecordNotFound, (s.1, S s.2))
       | Some _ =>
           (Ok tt, (set_statements (alter data id (statements s.1)) s.1, S s.2))
       end.
Proof.
  unfold tx_statement_update. rewrite tx_bind_run. unfold tx_op.
  destruct (decide (txFault env = Some s.2)); [done |]. simpl.
  destruct (statements s.1 !! id) eqn:E; [| done].
  by rewrite (insert_as_alter data _ _ _ E).
Qed.

Lemma tx_payment_update_run pid st ext env s :
  tx_payment_update pid st ext env s =
  if decide (txFault env = Some s.2)
  then (Throw StorageError, (s.1, S s.2))
  else match payments s.1 !! pid with
       | None => (Throw RecordNotFound, (s.1, S s.2))
       | Some p =>
           let p' := withStatus st ext p in
           (Ok p', (set_payments (<[pid := p']> (payments s.1)) s.1, S s.2))
       end.
Proof.
  unfold tx_payment_update. rewrite tx_bind_run. unfold tx_op.
  destruct (decide (txFault env = Some s.2)); [done |]. simpl.
  by destruct (payments s.1 !! pid).
Qed.

Lemma tx_statement_findMany_run cid env s :
  tx_statement_findMany cid env s =
  if decide (txFault env = Some s.2)
  then (Throw StorageError, (s.1, S s.2))
  else (Ok (statement_findMany cid (statements s.1)), (s.1, S s.2)).
Proof.
  unfold tx_statement_findMany. rewrite tx_bind_run. unfold tx_op.
  by destruct (decide (txFault env = Some s.2)).
Qed.

Lemma set_statements_twice m1 m2 w :
  set_statements m1 (set_statements m2 w) = set_statements m1 w.
Proof. reflexivity. Qed.

Lemma set_statements_same w : set_statements (statements w) w = w.
Proof. by destruct w. Qed.

(** ** The loop over the statements *)

Lemma settle_nothing_left rem stmts m : rem ≤ 0 → settle rem stmts m = m.
Proof.
  intros Hrem. destruct stmts as [| [id st] rest]; [done |]. simpl.
  destruct (Z.leb_spec rem 0); [done | lia].
Qed.

(** Whenever the loop completes, the table is [settle] of the table it
    started with, and nothing else of the world has changed. *)
Lemma applyToStatements_ok stmts : ∀ rem env s s',
  applyToStatements rem stmts env s = (Ok tt, s') →
  s'.1 = set_statements (settle rem stmts (statements s.1)) s.1.
Proof.
  induction stmts as [| [id st] rest IH]; intros rem env s s'; simpl.
  - intros [= <-]. by rewrite set_statements_same.
  - destruct (rem <=? 0).
    { intros [= <-]. by rewrite set_statements_same. }
    destruct (rem >=? balance st);
      rewrite tx_bind_run, tx_statement_update_run;
      (destruct (decide (txFault env = Some s.2)); [done |]);
      (destruct (statements s.1 !! id); [| done]);
      intros Hrun; apply IH in Hrun; by rewrite Hrun.
Qed.

(** Without a storage fault, and with every statement of the list in
    the table, the loop completes. *)
Lemma applyToStatements_total stmts : ∀ rem env s,
  txFault env = None →
  (∀ id row, (id, row) ∈ stmts → is_Some (statements s.1 !! id)) →
  ∃ n, applyToStatements rem stmts env s =
       (Ok tt, (set_statements (settle rem stmts (statements s.1)) s.1, n)).
Proof.
  induction stmts as [| [id st] rest IH]; intros rem env s Hnf Hrows; simpl.
  - exists s.2. rewrite set_statements_same. by destruct s.
  - destruct (rem <=? 0).
    { exists s.2. rewrite set_statements_same. by destruct s. }
    assert (is_Some (statements s.1 !! id)) as [row Hrow]
      by (eapply Hrows; left).
    assert (∀ f id' row', (id', row') ∈ rest →
              is_Some (alter f id (statements s.1) !! id')) as Hrest.
    { intros f id' row' Hin.
      assert (is_Some (statements s.1 !! id')) as [r' Hr']
        by (eapply Hrows; right; exact Hin).
      destruct (decide (id = id')) as [<- | Hne].
      - rewrite lookup_alter_eq, Hr'. eauto.
      - rewrite lookup_alter_ne, Hr' by done. eauto. }
    destruct (rem >=? balance st);
      rewrite tx_bind_run, tx_statement_update_run;
      (destruct (decide (txFault env = Some s.2)) as [Hf | _];
         [congruence |]);
      rewrite Hrow.
    + destruct (IH (rem - balance st) env
                  (set_statements (alter payOff id (statements s.1)) s.1, S s.2)
                  Hnf (Hrest payOff)) as [k Hk].
      exists k. by rewrite Hk.
    + destruct (IH 0 env
                  (set_statements
                     (alter (setBalance (balance st - rem)) id (statements s.1))
                     s.1, S s.2)
                  Hnf (Hrest _)) as [k Hk].
      exists k. by rewrite Hk.
Qed.

(** ** Sums over rows *)

#[global] Instance sumOver_perm g : Proper ((≡ₚ) ==> (=)) (sumOver g).
Proof.
  intros l1 l2 Hp. unfold sumOver.
  induction Hp; simpl; lia.
Qed.

Lemma orZero_id x : orZero x = x.
Proof. unfold orZero. by destruct (decide (x = 0)) as [-> |]. Qed.

Lemma sumBalances_sumOver l : sumBalances l = sumOver (λ r, balance r.2) l.
Proof.
  unfold sumBalances, sumOver.
  assert (∀ a, foldl (λ sum st, sum + orZero (balance st.2)) a l
               = a + foldr (λ r acc, balance r.2 + acc) 0 l) as Hgen.
  { induction l as [| r l IH]; intros a; simpl; [lia |].
    rewrite IH, orZero_id. lia. }
  rewrite Hgen. lia.
Qed.

Lemma sumOver_filter (P : Z * Statement → Prop) `{∀ r, Decision (P r)} g l :
  sumOver g (filter P l) = sumOver (λ r, if decide (P r) then g r else 0) l.
Proof.
  induction l as [| r l IH]; [done |].
  rewrite filter_cons. simpl. destruct (decide (P r)); simpl; lia.
Qed.

Lemma sumOver_nonneg g l : (∀ r, r ∈ l → 0 ≤ g r) → 0 ≤ sumOver g l.
Proof.
  induction l as [| r l IH]; intros Hg; simpl; [lia |].
  assert (0 ≤ g r) by (apply Hg; left).
  assert (0 ≤ sumOver g l) by (apply IH; intros; apply Hg; by right).
  unfold sumOver in *. lia.
Qed.

(** Changing one row of a table changes a sum over the table by the
    difference on that row. *)
Lemma sumOver_alter g f i (m : gmap Z Statement) row :
  m !! i = Some row →
  sumOver g (map_to_list (alter f i m))
  = sumOver g (map_to_list m) - g (i, row) + g (i, f row).
Proof.
  intros Hrow.
  rewrite <- (map_to_list_delete m i row Hrow).
  rewrite <- (insert_as_alter f m i row Hrow).
  rewrite <- insert_delete_eq.
  rewrite map_to_list_insert by apply lookup_delete_eq.
  simpl. lia.
Qed.

Lemma outstandingBalance_sumOver c w :
  outstandingBalance c w = sumOver (unpaidWeight c) (map_to_list (statements w)).
Proof.
  unfold outstandingBalance, statement_findMany.
  rewrite sumBalances_sumOver, merge_sort_Permutation.
  apply sumOver_filter.
Qed.

Lemma freshOutstanding_outstandingBalance c w :
  freshOutstanding c w = outstandingBalance c w.
Proof.
  rewrite outstandingBalance_sumOver. unfold freshOutstanding.
  rewrite sumBalances_sumOver. apply sumOver_filter.
Qed.

(** ** What the loop does to the table *)

Lemma rowsOf_findMany cid m : rowsOf (statement_findMany cid m) m.
Proof. intros id row Hin. by apply findMany_elem in Hin as [? _]. Qed.

Lemma rowsOf_step id st rest f (m : gmap Z Statement) :
  NoDup ((id, st) :: rest).*1 →
  rowsOf ((id, st) :: rest) m →
  rowsOf rest (alter f id m).
Proof.
  intros Hnd Hrows id' row' Hin.
  rewrite fmap_cons in Hnd. apply NoDup_cons in Hnd as [Hni _].
  rewrite lookup_alter_ne.
  - apply Hrows. by right.
  - intros ->. apply Hni. by apply (list_elem_of_fmap_2 fst _ (id', row')).
Qed.

Lemma settle_lookup_other stmts : ∀ rem (m : gmap Z Statement) id,
  id ∉ stmts.*1 → settle rem stmts m !! id = m !! id.
Proof.
  induction stmts as [| [i st] rest IH]; intros rem m id Hni; simpl; [done |].
  rewrite fmap_cons in Hni. apply not_elem_of_cons in Hni as [Hne Hni].
  simpl in Hne.
  destruct (rem <=? 0); [done |].
  destruct (rem >=? balance st); rewrite IH by done; by rewrite lookup_alter_ne.
Qed.

(** A row of the table after the loop is a row of the table before it,
    or a statement of the list paid off, or a statement of the list with
    a smaller, positive balance. *)
Lemma settle_lookup stmts : ∀ rem (m : gmap Z Statement) id row',
  NoDup stmts.*1 →
  rowsOf stmts m →
  settle rem stmts m !! id = Some row' →
  m !! id = Some row'
  ∨ ∃ row, (id, row) ∈ stmts ∧ 0 < rem
      ∧ (row' = payOff row
         ∨ ∃ b, 0 < b < balance row ∧ row' = setBalance b row).
Proof.
  induction stmts as [| [i st] rest IH]; intros rem m id row' Hnd Hrows;
    simpl; [by left |].
  destruct (Z.leb_spec rem 0) as [Hle | Hpos]; [by left |].
  pose proof Hnd as Hnd'.
  rewrite fmap_cons in Hnd'. apply NoDup_cons in Hnd' as [Hni Hndr].
  assert (m !! i = Some st) as Hst by (apply Hrows; left).
  destruct (Z.geb_spec rem (balance st)) as [Hge | Hlt].
  - intros Hl.
    destruct (decide (id = i)) as [-> | Hne].
    + rewrite settle_lookup_other in Hl by done.
      rewrite lookup_alter_eq, Hst in Hl. injection Hl as <-.
      right. exists st. split; [left |]. split; [lia | by left].
    + apply IH in Hl; [| done | by eapply rowsOf_step].
      destruct Hl as [Hl | (row & Hin & _ & Hcase)].
      * left. by rewrite lookup_alter_ne in Hl.
      * right. exists row. split; [by right |]. split; [lia | done].
  - rewrite settle_nothing_left by lia. intros Hl.
    destruct (decide (id = i)) as [-> | Hne].
    + rewrite lookup_alter_eq, Hst in Hl. injection Hl as <-.
      right. exists st. split; [left |]. split; [lia |].
      right. exists (balance st - rem). split; [lia | done].
    + left. by rewrite lookup_alter_ne in Hl.
Qed.


(** The loop lowers a sum over the table by the smaller of the amount
    and the total of the list, for every weight that follows the
    balance on the statements of the list. *)
Lemma settle_sum g stmts : ∀ rem (m : gmap Z Statement),
  NoDup stmts.*1 →
  rowsOf stmts m →
  0 ≤ rem →
  (∀ id row, (id, row) ∈ stmts →
     0 ≤ balance row
     ∧ g (id, payOff row) = g (id, row) - balance row
     ∧ ∀ b, 0 < b → g (id, setBalance b row) = g (id, row) - balance row + b) →
  sumOver g (map_to_list (settle rem stmts m))
  = sumOver g (map_to_list m) - Z.min rem (sumOver (λ r, balance r.2) stmts).
Proof.
  induction stmts as [| [i st] rest IH]; intros rem m Hnd Hrows Hrem Hg; simpl.
  - lia.
  - assert (m !! i = Some st) as Hst by (apply Hrows; left).
    destruct (Hg i st) as (Hb & Hpay & Hpart); [left |].
    assert (0 ≤ sumOver (λ r, balance r.2) rest) as Hsum.
    { apply sumOver_nonneg. intros [id' row'] Hin. simpl.
      apply (Hg id' row'). by right. }
    unfold sumOver in Hsum |- *; fold (sumOver (λ r, balance r.2) rest) in *.
    fold (sumOver g (map_to_list m)).
    destruct (Z.leb_spec rem 0) as [Hle | Hpos].
    { fold (sumOver g (map_to_list m)). simpl. lia. }
    pose proof Hnd as Hnd'.
    rewrite fmap_cons in Hnd'. apply NoDup_cons in Hnd' as [_ Hndr].
    destruct (Z.geb_spec rem (balance st)) as [Hge | Hlt].
    + fold (sumOver g (map_to_list (settle (rem - balance st) rest
                                       (alter payOff i m)))).
      rewrite IH; [| done | by eapply rowsOf_step | lia
                   | intros; apply Hg; by right].
      rewrite (sumOver_alter g payOff i m st Hst), Hpay. simpl. lia.
    + rewrite settle_nothing_left by lia.
      fold (sumOver g (map_to_list
                         (alter (setBalance (balance st - rem)) i m))).
      rewrite (sumOver_alter g _ i m st Hst), Hpart by lia. simpl. lia.
Qed.

(** ** What [processPayment] does to the world *)

Lemma logActivity_tables uid a env w :
  statements (logActivity uid a env w) = statements w
  ∧ payments (logActivity uid a env w) = payments w
  ∧ notifications (logActivity uid a env w) = notifications w
  ∧ cards (logActivity uid a env w) = cards w.
Proof. unfold logActivity. by destruct (activityFault env). Qed.

(** When the callback completes, it has updated the payment, applied
    the amount for a success, and emitted one notification. *)
Lemma processPaymentTx_ok pid st last4 uid amt ext env w w' n :
  processPaymentTx pid st last4 uid amt ext env (w, 0%nat) = (Ok tt, (w', n)) →
  ∃ p, payments w !! pid = Some p
    ∧ payments w' = <[pid := withStatus st ext p]> (payments w)
    ∧ statements w' = statementsAfter st amt p (statements w)
    ∧ cards w' = cards w
    ∧ notifications w'
      = notifications w
        ++ [ {| ntf_userId := uid; ntf_success := bool_decide (st = SUCCESS);
                ntf_amount := amt; ntf_last4 := last4 |} ].
Proof.
  unfold processPaymentTx, statementsAfter.
  rewrite tx_bind_run, tx_payment_update_run.
  destruct (decide (txFault env = Some (w, 0%nat).2)); [done |].
  simpl. destruct (payments w !! pid) as [p |] eqn:Hp; [| done].
  simpl. destruct (decide (st = SUCCESS)) as [-> | Hst].
  - rewrite tx_bind_run, tx_statement_findMany_run.
    destruct (decide (txFault env = Some _)); [done |].
    rewrite tx_bind_run.
    destruct (applyToStatements _ _ _ _) as [[[] | e] s1] eqn:Hloop; [| done].
    apply applyToStatements_ok in Hloop. simpl in Hloop.
    rewrite tx_bind_run.
    unfold createPaymentSuccessNotification, createPaymentNotification, tx_lift.
    destruct (notifyFault env); [done |].
    intros [= <- <-]. exists p. split; [done |].
    destruct (logActivity_tables uid
                (createActivityData_payment amt "bank" SUCCESS) env
                (add_notification
                   {| ntf_userId := uid; ntf_success := true;
                      ntf_amount := amt; ntf_last4 := last4 |} s1.1))
      as (-> & -> & -> & ->).
    rewrite Hloop. by rewrite bool_decide_eq_true_2.
  - rewrite tx_bind_run.
    unfold createPaymentFailedNotification, createPaymentNotification, tx_lift.
    destruct (notifyFault env); [done |].
    intros [= <- <-]. exists p. split; [done |].
    destruct (logActivity_tables uid
                (createActivityData_payment amt "bank" FAILED) env
                (add_notification
                   {| ntf_userId := uid; ntf_success := false;
                      ntf_amount := amt; ntf_last4 := last4 |}
                   (set_payments (<[pid := withStatus st ext p]> (payments w)) w)))
      as (-> & -> & -> & ->).
    by rewrite bool_decide_eq_false_2.
Qed.

(** Without a fault the callback completes on every existing payment. *)
Lemma processPaymentTx_total pid st last4 uid amt ext env w p :
  txFault env = None →
  notifyFault env = false →
  payments w !! pid = Some p →
  ∃ w' n,
    processPaymentTx pid st last4 uid amt ext env (w, 0%nat) = (Ok tt, (w', n)).
Proof.
  intros Hnf Hnn Hp. unfold processPaymentTx.
  rewrite tx_bind_run, tx_payment_update_run.
  destruct (decide (txFault env = Some (w, 0%nat).2)); [congruence |].
  simpl. rewrite Hp. simpl.
  destruct (decide (st = SUCCESS)) as [-> | Hst].
  - rewrite tx_bind_run, tx_statement_findMany_run.
    destruct (decide (txFault env = Some _)); [congruence |].
    rewrite tx_bind_run.
    edestruct (applyToStatements_total
                 (statement_findMany (pay_cardId (withStatus SUCCESS ext p))
                    (statements w)) amt env) as [k Hk]; [exact Hnf | |].
    2: { rewrite Hk. rewrite tx_bind_run.
         unfold createPaymentSuccessNotification, createPaymentNotification, tx_lift.
         rewrite Hnn. simpl. eauto. }
    simpl. intros id row Hin. apply rowsOf_findMany in Hin. eauto.
  - rewrite tx_bind_run.
    unfold createPaymentFailedNotification, createPaymentNotification, tx_lift.
    rewrite Hnn. simpl. eauto.
Qed.

(** An error of [processPayment] leaves both tables as they were. *)
Lemma processPayment_throw pid st last4 uid amt ext env w e w' :
  processPayment pid st last4 uid amt ext env w = (Throw e, w') →
  payments w' = payments w ∧ statements w' = statements w.
Proof.
  unfold processPayment, transaction.
  destruct (processPaymentTx _ _ _ _ _ _ _ _) as [[[] | e1] [w1 n1]].
  - destruct (decide (txFault env = Some n1)); [| done].
    by intros [= <- <-].
  - by intros [= <- <-].
Qed.

Lemma processPayment_ok pid st last4 uid amt ext env w w' :
  processPayment pid st last4 uid amt ext env w = (Ok tt, w') →
  ∃ p, payments w !! pid = Some p
    ∧ payments w' = <[pid := withStatus st ext p]> (payments w)
    ∧ statements w' = statementsAfter st amt p (statements w)
    ∧ cards w' = cards w.
Proof.
  unfold processPayment, transaction.
  destruct (processPaymentTx _ _ _ _ _ _ _ _) as [[[] | e1] [w1 n1]] eqn:Htx.
  - destruct (decide (txFault env = Some n1)); [done |].
    intros [= <-].
    apply processPaymentTx_ok in Htx as (p & Hp & Hpay & Hst & Hc & _).
    exists p. by simpl.
  - done.
Qed.

Lemma processPayment_total pid st last4 uid amt ext env w p :
  txFault env = None →
  notifyFault env = false →
  payments w !! pid = Some p →
  ∃ w', processPayment pid st last4 uid amt ext env w = (Ok tt, w').
Proof.
  intros Hnf Hnn Hp.
  destruct (processPaymentTx_total pid st last4 uid amt ext env w p Hnf Hnn Hp)
    as (w1 & n1 & Htx).
  unfold processPayment, transaction. rewrite Htx.
  destruct (decide (txFault env = Some n1)); [congruence |]. eauto.
Qed.

(** ** Storage faults *)

Lemma followsFaultFree_bind {A B} (m : Tx A) (f : A → Tx B) :
  followsFaultFree m → (∀ a, followsFaultFree (f a)) →
  followsFaultFree (m ≫= f).
Proof.
  intros Hm Hf env s. rewrite !tx_bind_run.
  specialize (Hm env s).
  destruct (m env s) as [[a | e] s1].
  - destruct Hm as (Hm0 & Hle & Hk). rewrite Hm0.
    specialize (Hf a env s1).
    destruct (f a env s1) as [[r | e] s2].
    + destruct Hf as (Hf0 & Hle' & Hk').
      split; [done |]. split; [lia |].
      intros k Hfault.
      destruct (Hk k Hfault), (Hk' k Hfault); lia.
    + done.
  - destruct Hm as [[s0 Hm0] | ->]; [| by right].
    left. exists s0. by rewrite Hm0.
Qed.

Lemma followsFaultFree_ret {A} (a : A) : followsFaultFree (mret a).
Proof. intros env s. simpl. split; [done |]. split; [lia |]. intros; lia. Qed.

Lemma followsFaultFree_op : followsFaultFree tx_op.
Proof.
  intros env s. unfold tx_op. simpl.
  destruct (decide (txFault env = Some s.2)) as [Hf | Hf]; simpl; [by right |].
  split; [done |]. split; [lia |].
  intros k Hk. rewrite Hk in Hf.
  destruct (decide (k = s.2)) as [-> | Hne]; [done | lia].
Qed.

(** A step that does not look at [txFault] and does not touch the
    counter. *)
Lemma followsFaultFree_pure {A} (m : Tx A) :
  (∀ env s, m (withTxFault None env) s = m env s) →
  (∀ env s, (m env s).2.2 = s.2) →
  followsFaultFree m.
Proof.
  intros Hindep Hcnt env s. specialize (Hindep env s). specialize (Hcnt env s).
  destruct (m env s) as [[r | e] s'] eqn:E; simpl in Hcnt.
  - split; [done |]. split; [lia |]. intros; lia.
  - left. eauto.
Qed.

Lemma followsFaultFree_statement_update id data :
  followsFaultFree (tx_statement_update id data).
Proof.
  apply followsFaultFree_bind; [apply followsFaultFree_op |]. intros _.
  apply followsFaultFree_pure; intros env s; simpl;
    by destruct (statements s.1 !! id).
Qed.

Create HintDb faults discriminated.

#[local] Hint Resolve followsFaultFree_ret followsFaultFree_op
  followsFaultFree_statement_update followsFaultFree_bind : faults.

Lemma followsFaultFree_loop stmts : ∀ rem,
  followsFaultFree (applyToStatements rem stmts).
Proof.
  induction stmts as [| [id st] rest IH]; intros rem; simpl;
    repeat case_match; auto with faults.
Qed.

Lemma followsFaultFree_processPaymentTx pid st last4 uid amt ext :
  followsFaultFree (processPaymentTx pid st last4 uid amt ext).
Proof.
  unfold processPaymentTx.
  apply followsFaultFree_bind.
  { apply followsFaultFree_bind; [apply followsFaultFree_op |]. intros _.
    apply followsFaultFree_pure; intros env s; simpl;
      by destruct (payments s.1 !! pid). }
  intros p. destruct (decide (st = SUCCESS)).
  - apply followsFaultFree_bind.
    { apply followsFaultFree_bind; [apply followsFaultFree_op |]. intros _.
      by apply followsFaultFree_pure. }
    intros stmts. apply followsFaultFree_bind; [apply followsFaultFree_loop |].
    intros _. apply followsFaultFree_bind.
    + apply followsFaultFree_pure; intros env s;
        unfold createPaymentSuccessNotification, createPaymentNotification;
        simpl; by destruct (notifyFault env).
    + intros _. by apply followsFaultFree_pure.
  - apply followsFaultFree_bind.
    + apply followsFaultFree_pure; intros env s;
        unfold createPaymentFailedNotification, createPaymentNotification;
        simpl; by destruct (notifyFault env).
    + intros _. by apply followsFaultFree_pure.
Qed.

(** A storage fault at an operation that the fault-free run issues, the
    commit included, makes [processPayment] throw the storage error. *)
Lemma processPayment_fault pid st last4 uid amt ext env w w0 n0 k :
  processPaymentTx pid st last4 uid amt ext (withTxFault None env) (w, 0%nat)
    = (Ok tt, (w0, n0)) →
  txFault env = Some k →
  (k ≤ n0)%nat →
  ∃ w', processPayment pid st last4 uid amt ext env w = (Throw StorageError, w').
Proof.
  intros Hfree Hk Hle.
  pose proof (followsFaultFree_processPaymentTx pid st last4 uid amt ext
                env (w, 0%nat)) as Hsim.
  unfold processPayment, transaction.
  destruct (processPaymentTx pid st last4 uid amt ext env (w, 0%nat))
    as [[[] | e] [w1 n1]].
  - destruct Hsim as (Hsame & _ & Hrange).
    rewrite Hfree in Hsame. injection Hsame as <- <-.
    destruct (Hrange k Hk) as [Hlt | Hge]; simpl in *; [lia |].
    assert (k = n0) as -> by lia.
    destruct (decide (txFault env = Some n0)); [eauto | done].
  - destruct Hsim as [[s0 Hsame] | ->]; [congruence | eauto].
Qed.

(** ** Outstanding balance after a successful resolution *)

Lemma settle_findMany_sums c amt (m : gmap Z Statement) :
  0 ≤ amt →
  nonNegative m →
  let due := sumOver (unpaidWeight c) (map_to_list m) in
  let m' := settle amt (statement_findMany (Some c) m) m in
  sumOver (unpaidWeight c) (map_to_list m') = due - Z.min amt due
  ∧ sumOver (λ r, balance r.2) (map_to_list m')
    = sumOver (λ r, balance r.2) (map_to_list m) - Z.min amt due.
Proof.
  intros Hamt Hnn due m'.
  assert (sumOver (λ r, balance r.2) (statement_findMany (Some c) m) = due)
    as Hdue.
  { unfold statement_findMany. rewrite merge_sort_Permutation.
    apply sumOver_filter. }
  assert (∀ g,
            (∀ id row, m !! id = Some row → isUnpaidOf (Some c) (id, row) →
               g (id, payOff row) = g (id, row) - balance row
               ∧ ∀ b, 0 < b →
                   g (id, setBalance b row) = g (id, row) - balance row + b) →
            sumOver g (map_to_list m')
            = sumOver g (map_to_list m) - Z.min amt due) as Hsum.
  { intros g Hg. subst m'. rewrite <- Hdue.
    apply settle_sum;
      [apply findMany_NoDup | apply rowsOf_findMany | done |].
    intros id row Hin. apply findMany_elem in Hin as [Hrow Hunp].
    split; [by eapply Hnn | by apply Hg]. }
  split.
  - fold due. apply Hsum. intros id row _ [Hc Hp]. simpl in Hc, Hp.
    unfold unpaidWeight, isUnpaidOf. simpl.
    destruct (decide (Some c = Some (stmt_cardId row) ∧ isPaid row = false))
      as [_ | []]; [| done].
    split; [destruct (decide _); lia |].
    intros b _. destruct (decide _) as [_ | []]; [lia | done].
  - apply Hsum. intros id row _ _. simpl. split; [lia |]. intros; lia.
Qed.

Lemma settle_nonNegative amt stmts (m : gmap Z Statement) :
  NoDup stmts.*1 → rowsOf stmts m → nonNegative m →
  nonNegative (settle amt stmts m).
Proof.
  intros Hnd Hrows Hnn id row' Hl.
  apply settle_lookup in Hl; [| done | done].
  destruct Hl as [Hl | (row & _ & _ & [-> | (b & Hb & ->)])]; simpl.
  - by eapply Hnn.
  - lia.
  - lia.
Qed.

(** A row changed by the loop is paid with balance 0, or unpaid with a
    positive balance. *)
Lemma settle_changed_row amt cid (m : gmap Z Statement) id row' :
  settle amt (statement_findMany cid m) m !! id = Some row' →
  m !! id ≠ Some row' →
  (balance row' = 0 ∧ isPaid row' = true)
  ∨ (0 < balance row' ∧ isPaid row' = false).
Proof.
  intros Hl Hchg.
  apply settle_lookup in Hl;
    [| apply findMany_NoDup | apply rowsOf_findMany].
  destruct Hl as [Hl | (row & Hin & _ & [-> | (b & Hb & ->)])];
    [done | by left |].
  right. apply findMany_elem in Hin as [_ [_ Hp]]. simpl in *.
  split; [lia | done].
Qed.

Lemma statementsAfter_invariant st amt p (m : gmap Z Statement) :
  statementInvariant m → statementInvariant (statementsAfter st amt p m).
Proof.
  intros Hinv id row' Hl Hpaid. unfold statementsAfter in Hl.
  destruct (decide (st = SUCCESS)); [| by eapply Hinv].
  destruct (decide (m !! id = Some row')) as [Hsame | Hchg];
    [by eapply Hinv |].
  destruct (settle_changed_row _ _ _ _ _ Hl Hchg) as [[? _] | [_ ?]];
    [done | congruence].
Qed.

(** The statements after [processPayment], whatever the environment:
    those before it, or those of a committed resolution. *)
Lemma processPayment_statements pid st last4 uid amt ext env w :
  statements (processPayment pid st last4 uid amt ext env w).2 = statements w
  ∨ ∃ p, payments w !! pid = Some p
      ∧ (processPayment pid st last4 uid amt ext env w).1 = Ok tt
      ∧ statements (processPayment pid st last4 uid amt ext env w).2
        = statementsAfter st amt p (statements w).
Proof.
  destruct (processPayment pid st last4 uid amt ext env w) as [[[] | e] w'] eqn:E.
  - apply processPayment_ok in E as (p & Hp & _ & Hst & _).
    right. exists p. by simpl.
  - apply processPayment_throw in E as [_ Hst]. by left.
Qed.

(** ** When the loop changes the table *)

(** The loop changes the table of statements exactly when the amount is
    positive and the card has an unpaid statement. *)
Lemma settle_findMany_changed cid amt (m : gmap Z Statement) :
  settle amt (statement_findMany cid m) m ≠ m
  ↔ 0 < amt ∧ ∃ id row, m !! id = Some row ∧ isUnpaidOf cid (id, row).
Proof.
  pose proof (findMany_NoDup cid m) as Hnd.
  pose proof (rowsOf_findMany cid m) as Hrows.
  assert (∀ id row, (id, row) ∈ statement_findMany cid m → isPaid row = false)
    as Hunpaid.
  { intros id row Hin. apply findMany_elem in Hin as [_ [_ Hp]]. exact Hp. }
  assert ((∃ id row, m !! id = Some row ∧ isUnpaidOf cid (id, row))
          ↔ statement_findMany cid m ≠ []) as ->.
  { split.
    - intros (id & row & Hl & Hu) Hnil.
      assert ((id, row) ∈ statement_findMany cid m) as Hin
        by (by apply findMany_elem).
      rewrite Hnil in Hin. by apply elem_of_nil in Hin.
    - destruct (statement_findMany cid m) as [| [id row] rest] eqn:E; [done |].
      intros _. exists id, row. apply findMany_elem. rewrite E.
      apply list_elem_of_here. }
  destruct (statement_findMany cid m) as [| [id st] rest]; simpl.
  { split; [done | by intros [_ ?]]. }
  destruct (amt <=? 0) eqn:Hle.
  { apply Z.leb_le in Hle. split; [done | intros [? _]; lia]. }
  apply Z.leb_gt in Hle. split; [done |]. intros _ Heq.
  assert (m !! id = Some st) as Hl by (apply Hrows, list_elem_of_here).
  assert (isPaid st = false) as Hp by (eapply Hunpaid, list_elem_of_here).
  apply NoDup_cons in Hnd as [Hnotin _]. simpl in Hnotin.
  assert (∀ f rem, settle rem rest (alter f id m) !! id = Some (f st)) as Hid.
  { intros f rem. rewrite settle_lookup_other by done.
    by rewrite lookup_alter_eq, Hl. }
  destruct (amt >=? balance st) eqn:Hge.
  - rewrite <- Heq in Hl at 1. rewrite Hid in Hl. injection Hl as Hl.
    rewrite <- Hl in Hp. simpl in Hp. discriminate.
  - rewrite <- Heq in Hl at 1. rewrite Hid in Hl. injection Hl as Hl.
    apply (f_equal balance) in Hl. simpl in Hl. lia.
Qed.

(** * The properties of the specification *)



(** C3 as the specification states it fails on amounts with a fraction,
    where the arithmetic of doubles rounds.  A payment of 0.6 against
    unpaid statements of 0.1, 0.2 and 0.3 does not exceed their sum as
    the handler computes it, so the creation handler accepts it; the
    loop pays off all three statements; the total of the balances
    drops by more than the amount paid, which is less than their sum:
    the reduction is not min(A, sum). *)
Lemma overpay_rule_fails_on_fractions :
  let A := 0.6%float in
  let before := sumBalancesOnDoubles fractionalStatements in
  let rows := applyToStatementsOnDoubles A fractionalStatements in
  let after := sumBalancesOnDoubles rows in
  exceedsOnDoubles A before = false
  ∧ rows = [ {| sd_balance := 0%float; sd_isPaid := true |};
             {| sd_balance := 0%float; sd_isPaid := true |};
             {| sd_balance := 0%float; sd_isPaid := true |} ]
  ∧ PrimFloat.ltb A before = true
  ∧ PrimFloat.ltb A (PrimFloat.sub before after) = true.
Proof. repeat split; vm_compute; reflexivity. Qed.

(** C3 as the code has it.  On whole numbers, where the arithmetic of
    the code is exact, a SUCCESS resolution with amount A lowers the
    balances by min(A, sum of the unpaid balances of the card) in
    total: what is left of A after the last statement is dropped, no
    balance becomes negative, and nothing is carried over.  A single
    unpaid statement of 200 under a payment of 500 ends at balance 0,
    paid.  On amounts with a fraction the equation fails: 0.6 against
    0.1, 0.2 and 0.3 pays off all three statements and lowers the total
    by more than 0.6. *)
Theorem processPayment_overpay_discarded :
  (∀ env w pid p c last4 uid amt ext,
     txFault env = None →
     notifyFault env = false →
     payments w !! pid = Some p →
     pay_cardId p = Some c →
     0 ≤ amt →
     nonNegative (statements w) →
     ∃ w', processPayment pid SUCCESS last4 uid amt ext env w = (Ok tt, w')
       ∧ totalBalance w'
         = totalBalance w - Z.min amt (outstandingBalance c w)
       ∧ outstandingBalance c w'
         = outstandingBalance c w - Z.min amt (outstandingBalance c w)
       ∧ nonNegative (statements w'))
  ∧ statements
      (processPayment "p1" SUCCESS "4242" 7 500 None noFault
         (sampleWorld (oneStatement 200) {[ "p1" := samplePayment 500 PENDING ]})).2
    = {[ 1 := {| stmt_cardId := 1; dueDate := jan10; balance := 0;
                 isPaid := true |} ]}
  ∧ exceedsOnDoubles 0.6%float (sumBalancesOnDoubles fractionalStatements)
    = false
  ∧ Forall (λ row, row = {| sd_balance := 0%float; sd_isPaid := true |})
      (applyToStatementsOnDoubles 0.6%float fractionalStatements)
  ∧ PrimFloat.ltb 0.6%float
      (PrimFloat.sub
         (sumBalancesOnDoubles fractionalStatements)
         (sumBalancesOnDoubles
            (applyToStatementsOnDoubles 0.6%float fractionalStatements)))
    = true.
Proof.
  split; [| split; [by vm_compute |]; split; [by vm_compute |];
             split; [by repeat constructor | by vm_compute]].
  intros env w pid p c last4 uid amt ext Hnf Hnn Hp Hc Hamt Hpos.
  destruct (processPayment_total pid SUCCESS last4 uid amt ext env w p Hnf Hnn Hp)
    as [w' Hrun].
  exists w'. split; [done |].
  apply processPayment_ok in Hrun as (p' & Hp' & _ & Hst & _).
  assert (p' = p) as -> by congruence.
  unfold statementsAfter in Hst. rewrite decide_True, Hc in Hst by done.
  destruct (settle_findMany_sums c amt (statements w) Hamt Hpos) as [Hout Htot].
  unfold totalBalance. rewrite !outstandingBalance_sumOver, Hst.
  split; [exact Htot |]. split; [exact Hout |].
  apply settle_nonNegative;
    [apply findMany_NoDup | apply rowsOf_findMany | done].
Qed.

Lemma processPayment_overpay_discarded_witness :
  let w := sampleWorld (oneStatement 200) {[ "p1" := samplePayment 500 PENDING ]} in
  txFault noFault = None
  ∧ notifyFault noFault = false
  ∧ payments w !! "p1" = Some (samplePayment 500 PENDING)
  ∧ 0 ≤ 500
  ∧ nonNegative (statements w)
  ∧ ∃ w', processPayment "p1" SUCCESS "4242" 7 500 None noFault w = (Ok tt, w')
      ∧ totalBalance w' = totalBalance w - Z.min 500 (outstandingBalance 1 w)
      ∧ outstandingBalance 1 w'
        = outstandingBalance 1 w - Z.min 500 (outstandingBalance 1 w)
      ∧ nonNegative (statements w').
Proof.
  intros w.
  assert (nonNegative (statements w)) as Hnn.
  { intros id row Hl. simpl in Hl. unfold oneStatement in Hl.
    apply lookup_singleton_Some in Hl as [_ <-]. simpl. lia. }
  split; [reflexivity |]. split; [reflexivity |]. split; [reflexivity |].
  split; [lia |]. split; [exact Hnn |].
  apply (proj1 processPayment_overpay_discarded noFault w "p1"
           (samplePayment 500 PENDING) 1 "4242" 7 500 None);
    [reflexivity | reflexivity | reflexivity | reflexivity | lia | exact Hnn].
Defined.

Lemma createPaymentHandler_statements req env w :
  statements (createPaymentHandler req env w).1.2 = statements w
  ∧ cards (createPaymentHandler req env w).1.2 = cards w.
Proof.
  unfold createPaymentHandler, createPending, payment_create.
  repeat (case_match; simpl; try done).
Qed.

Lemma webhookHandler_statements b env w :
  statements (webhookHandler b env w).2 = statements w
  ∨ ∃ st payment card,
      webhookSchema b = Some st
      ∧ payments w !! wb_paymentId b = Some payment
      ∧ payment_card payment w = Some card
      ∧ statements (webhookHandler b env w).2
        = statements (processPayment (wb_paymentId b) st (card_last4 card)
                        (pay_userId payment) (pay_amount payment)
                        (wb_externalId b) env w).2.
Proof.
  unfold webhookHandler.
  destruct (webhookSchema b) as [st |]; [| by left].
  destruct (payments w !! wb_paymentId b) as [payment |]; [| by left].
  destruct (payment_card payment w) as [card |] eqn:Hcard; [| by left].
  right. exists st, payment, card.
  split; [done |]. split; [done |]. split; [done |].
  by destruct (processPayment _ _ _ _ _ _ _ _) as [[[] | e] w'].
Qed.

Lemma runDeferred_statements d env w :
  statements (runDeferred d env w)
  = statements (processPayment (d_paymentId d) (d_finalStatus d) (d_last4 d)
                  (d_userId d) (d_amount d) None env w).2.
Proof.
  unfold runDeferred.
  by destruct (processPayment _ _ _ _ _ _ _ _) as [[[] | e] w'].
Qed.

Lemma processPayment_invariant pid st last4 uid amt ext env w :
  statementInvariant (statements w) →
  statementInvariant (statements (processPayment pid st last4 uid amt ext env w).2).
Proof.
  intros Hinv.
  destruct (processPayment_statements pid st last4 uid amt ext env w)
    as [-> | (p & _ & _ & ->)]; [done |].
  by apply statementsAfter_invariant.
Qed.

(** C8. Every operation of the settlement core keeps the invariant of
    the statements, [isPaid = true] implies [balance = 0]: resolution
    by [processPayment], through the webhook or the deferred task, keeps
    it under every environment, and creation does not write statements.
    A row that a resolution changes is paid with balance 0, or unpaid
    with a positive balance. *)
Theorem settlement_keeps_statement_invariant :
  ∀ env w,
    statementInvariant (statements w) →
    (∀ pid st last4 uid amt ext,
       statementInvariant
         (statements (processPayment pid st last4 uid amt ext env w).2))
    ∧ (∀ b, statementInvariant (statements (webhookHandler b env w).2))
    ∧ (∀ d, statementInvariant (statements (runDeferred d env w)))
    ∧ (∀ req, statements (createPaymentHandler req env w).1.2 = statements w)
    ∧ (∀ pid st last4 uid amt ext id row',
         statements (processPayment pid st last4 uid amt ext env w).2 !! id
           = Some row' →
         statements w !! id ≠ Some row' →
         (balance row' = 0 ∧ isPaid row' = true)
         ∨ (0 < balance row' ∧ isPaid row' = false)).
Proof.
  intros env w Hinv. repeat split.
  - intros. by apply processPayment_invariant.
  - intros b.
    destruct (webhookHandler_statements b env w)
      as [-> | (st & payment & card & _ & _ & _ & ->)]; [done |].
    by apply processPayment_invariant.
  - intros d. rewrite runDeferred_statements. by apply processPayment_invariant.
  - intros req. apply createPaymentHandler_statements.
  - intros pid st last4 uid amt ext id row' Hl Hchg.
    destruct (processPayment_statements pid st last4 uid amt ext env w)
      as [Hsame | (p & _ & _ & Hafter)].
    + by rewrite Hsame in Hl.
    + rewrite Hafter in Hl. unfold statementsAfter in Hl.
      destruct (decide (st = SUCCESS)); [| done].
      by eapply settle_changed_row.
Qed.

Lemma settlement_keeps_statement_invariant_witness :
  let w := sampleWorld twoStatements {[ "p1" := samplePayment 700 PENDING ]} in
  statementInvariant (statements w)
  ∧ statementInvariant
      (statements (processPayment "p1" SUCCESS "4242" 7 700 None noFault w).2).
Proof.
  intros w.
  assert (statementInvariant (statements w)) as Hinv.
  { intros id row Hl Hpaid. simpl in Hl. unfold twoStatements in Hl.
    apply lookup_insert_Some in Hl as [[_ <-] | [_ Hl]]; [done |].
    apply lookup_singleton_Some in Hl as [_ <-]. done. }
  split; [exact Hinv |].
  apply (proj1 (settlement_keeps_statement_invariant noFault w Hinv)).
Defined.

(** ** Abort on a storage fault *)

(** C6. When the storage layer fails during the resolution of a
    payment, at any operation of the transaction up to the commit, the
    whole unit is undone: the payment and every statement are as before,
    and the error reaches the caller, which the webhook handler answers
    with the error.  Whatever the environment, after the handler the two
    tables are those from before the call or those of the completed
    resolution, never a state in between. *)
Theorem storage_failure_aborts_resolution :
  ∀ b st payment card env w,
    webhookSchema b = Some st →
    payments w !! wb_paymentId b = Some payment →
    payment_card payment w = Some card →
    let resolve := processPayment (wb_paymentId b) st (card_last4 card)
                     (pay_userId payment) (pay_amount payment)
                     (wb_externalId b) in
    let body := processPaymentTx (wb_paymentId b) st (card_last4 card)
                  (pay_userId payment) (pay_amount payment)
                  (wb_externalId b) in
    (∀ w0 n0 k,
       body (withTxFault None env) (w, 0%nat) = (Ok tt, (w0, n0)) →
       txFault env = Some k →
       (k ≤ n0)%nat →
       ∃ w', resolve env w = (Throw StorageError, w')
         ∧ webhookHandler b env w = (Failed StorageError, w')
         ∧ payments w' = payments w
         ∧ statements w' = statements w)
    ∧ ((∃ e, (webhookHandler b env w).1 = Failed e
          ∧ payments (webhookHandler b env w).2 = payments w
          ∧ statements (webhookHandler b env w).2 = statements w)
       ∨ ((webhookHandler b env w).1
            = Acknowledged "Webhook processed successfully"
          ∧ payments (webhookHandler b env w).2
            = <[wb_paymentId b := withStatus st (wb_externalId b) payment]>
                (payments w)
          ∧ statements (webhookHandler b env w).2
            = statementsAfter st (pay_amount payment) payment (statements w))).
Proof.
  intros b st payment card env w Hschema Hpay Hcard resolve body.
  assert (webhookHandler b env w
          = match resolve env w with
            | (Ok _, w') => (Acknowledged "Webhook processed successfully", w')
            | (Throw e, w') => (Failed e, w')
            end) as Hweb.
  { unfold webhookHandler. by rewrite Hschema, Hpay, Hcard. }
  split.
  - intros w0 n0 k Hfree Hk Hle.
    destruct (processPayment_fault _ _ _ _ _ _ _ _ _ _ _ Hfree Hk Hle)
      as [w' Hthrow].
    exists w'. fold resolve in Hthrow. rewrite Hweb, Hthrow.
    split; [done |]. split; [done |].
    by apply processPayment_throw in Hthrow.
  - rewrite Hweb.
    destruct (resolve env w) as [[[] | e] w'] eqn:E; subst resolve.
    + right. apply processPayment_ok in E as (p & Hp & Hp' & Hst & _).
      assert (p = payment) as -> by congruence. by simpl.
    + left. exists e. apply processPayment_throw in E as [? ?]. by simpl.
Qed.

Lemma storage_failure_aborts_resolution_witness :
  let w := sampleWorld twoStatements {[ "p1" := samplePayment 700 PENDING ]} in
  let b := {| wb_paymentId := "p1"; wb_status := "SUCCESS";
              wb_externalId := Some "ext-1" |} in
  let env := {| txFault := Some 3%nat; activityFault := false;
                notifyFault := false; randomSuccess := true |} in
  let run := processPaymentTx "p1" SUCCESS "4242" 7 700 (Some "ext-1")
               (withTxFault None env) (w, 0%nat) in
  webhookSchema b = Some SUCCESS
  ∧ payments w !! "p1" = Some (samplePayment 700 PENDING)
  ∧ payment_card (samplePayment 700 PENDING) w
    = Some {| card_userId := 7; card_status := ACTIVE; card_last4 := "4242" |}
  ∧ run = (Ok tt, (run.2.1, 4%nat))
  ∧ txFault env = Some 3%nat
  ∧ (3 ≤ 4)%nat
  ∧ ∃ w', processPayment "p1" SUCCESS "4242" 7 700 (Some "ext-1") env w
          = (Throw StorageError, w')
      ∧ webhookHandler b env w = (Failed StorageError, w')
      ∧ payments w' = payments w
      ∧ statements w' = statements w.
Proof.
  intros w b env run.
  assert (run = (Ok tt, (run.2.1, 4%nat))) as Hrun by (by vm_compute).
  split; [reflexivity |]. split; [reflexivity |]. split; [reflexivity |].
  split; [exact Hrun |]. split; [reflexivity |]. split; [lia |].
  apply (proj1 (storage_failure_aborts_resolution b SUCCESS
                  (samplePayment 700 PENDING)
                  {| card_userId := 7; card_status := ACTIVE;
                     card_last4 := "4242" |}
                  env w eq_refl eq_refl eq_refl) run.2.1 4%nat 3%nat);
    [exact Hrun | reflexivity | lia].
Defined.

(** ** The webhook on a payment without a card *)

(** C10. A webhook request for a payment whose [cardId] is null errors
    out at the read of [payment.card.last4]: the handler answers with
    the error and neither the status of the payment nor any statement
    is written. *)
Theorem webhook_on_payment_without_card :
  ∀ b env w st payment,
    webhookSchema b = Some st →
    payments w !! wb_paymentId b = Some payment →
    pay_cardId payment = None →
    webhookHandler b env w = (Failed TypeError, w).
Proof.
  intros b env w st payment Hschema Hpay Hnull.
  unfold webhookHandler, payment_card. by rewrite Hschema, Hpay, Hnull.
Qed.

Lemma webhook_on_payment_without_card_witness :
  let p := {| pay_cardId := None; pay_userId := 7; pay_amount := 250;
              pay_method := "razorpay"; pay_status := SUCCESS;
              externalId := Some "pay_1"; idempotencyKey := None |} in
  let w := sampleWorld twoStatements {[ "p1" := p ]} in
  let b := {| wb_paymentId := "p1"; wb_status := "FAILED";
              wb_externalId := None |} in
  webhookSchema b = Some FAILED
  ∧ payments w !! "p1" = Some p
  ∧ pay_cardId p = None
  ∧ webhookHandler b noFault w = (Failed TypeError, w).
Proof.
  intros p w b.
  split; [reflexivity |]. split; [reflexivity |]. split; [reflexivity |].
  apply (webhook_on_payment_without_card b noFault w FAILED p); reflexivity.
Defined.

(** ** A failing audit write *)

Lemma applyToStatements_activity f stmts : ∀ rem env s,
  applyToStatements rem stmts (withActivityFault f env) s
  = applyToStatements rem stmts env s.
Proof.
  induction stmts as [| [id st] rest IH]; intros rem env s; simpl; [done |].
  destruct (rem <=? 0); [done |].
  destruct (rem >=? balance st);
    rewrite !tx_bind_run, !tx_statement_update_run; simpl txFault;
    (destruct (decide (txFault env = Some s.2)); [done |]);
    (destruct (statements s.1 !! id); [| done]);
    apply IH.
Qed.

(** The callback does not depend on the outcome of the audit write,
    except for the activity row and the log line themselves. *)
Lemma processPaymentTx_activity f pid st last4 uid amt ext env w :
  let r1 := processPaymentTx pid st last4 uid amt ext
              (withActivityFault f env) (w, 0%nat) in
  let r2 := processPaymentTx pid st last4 uid amt ext env (w, 0%nat) in
  r1.1 = r2.1 ∧ r1.2.2 = r2.2.2 ∧ sameTables r1.2.1 r2.2.1.
Proof.
  unfold processPaymentTx, sameTables.
  rewrite !tx_bind_run, !tx_payment_update_run. simpl txFault.
  destruct (decide (txFault env = Some (w, 0%nat).2)); [done |].
  simpl. destruct (payments w !! pid) as [p |]; [| done].
  simpl. destruct (decide (st = SUCCESS)) as [-> | Hst].
  - rewrite !tx_bind_run, !tx_statement_findMany_run. simpl txFault.
    destruct (decide (txFault env = Some _)); [done |].
    rewrite !tx_bind_run, applyToStatements_activity.
    destruct (applyToStatements _ _ _ _) as [[[] | e] s1]; [| done].
    rewrite !tx_bind_run.
    unfold createPaymentSuccessNotification, createPaymentNotification, tx_lift.
    simpl notifyFault. destruct (notifyFault env); [done |].
    simpl. unfold logActivity. simpl activityFault.
    by destruct f, (activityFault env).
  - rewrite !tx_bind_run.
    unfold createPaymentFailedNotification, createPaymentNotification, tx_lift.
    simpl notifyFault. destruct (notifyFault env); [done |].
    simpl. unfold logActivity. simpl activityFault.
    by destruct f, (activityFault env).
Qed.

(** Neither the result of [processPayment] nor the tables after it
    depend on the outcome of the audit write. *)
Lemma processPayment_activity f pid st last4 uid amt ext env w :
  let r1 := processPayment pid st last4 uid amt ext (withActivityFault f env) w in
  let r2 := processPayment pid st last4 uid amt ext env w in
  r1.1 = r2.1 ∧ sameTables r1.2 r2.2.
Proof.
  pose proof (processPaymentTx_activity f pid st last4 uid amt ext env w)
    as (Hres & Hcnt & Hpay & Hst & Hc & Hn).
  unfold processPayment, transaction, sameTables. simpl txFault.
  destruct (processPaymentTx pid st last4 uid amt ext
              (withActivityFault f env) (w, 0%nat)) as [r1 [w1 n1]].
  destruct (processPaymentTx pid st last4 uid amt ext env (w, 0%nat))
    as [r2 [w2 n2]].
  simpl in *. subst r2 n2.
  destruct r1 as [[] | e]; [destruct (decide (txFault env = Some n1)) |];
    simpl; by rewrite ?Hpay, ?Hst, ?Hc, ?Hn.
Qed.

(** The successful resolution without a storage or notification fault,
    in full. *)
Lemma processPayment_success_run pid last4 uid amt ext env w p :
  txFault env = None →
  notifyFault env = false →
  payments w !! pid = Some p →
  processPayment pid SUCCESS last4 uid amt ext env w
  = (Ok tt,
     add_log (LogPaymentProcessed pid SUCCESS)
       (logActivity uid (createActivityData_payment amt "bank" SUCCESS) env
          (add_notification
             {| ntf_userId := uid; ntf_success := true; ntf_amount := amt;
                ntf_last4 := last4 |}
             (set_statements
                (settle amt (statement_findMany (pay_cardId p) (statements w))
                   (statements w))
                (set_payments (<[pid := withStatus SUCCESS ext p]> (payments w))
                   w))))).
Proof.
  intros Hnf Hnn Hp. unfold processPayment, transaction, processPaymentTx.
  rewrite tx_bind_run, tx_payment_update_run.
  destruct (decide (txFault env = Some (w, 0%nat).2)); [congruence |].
  simpl. rewrite Hp. simpl.
  rewrite tx_bind_run, tx_statement_findMany_run.
  destruct (decide (txFault env = Some _)); [congruence |].
  rewrite tx_bind_run.
  edestruct (applyToStatements_total
               (statement_findMany (pay_cardId p) (statements w)) amt env)
    as [k Hk]; [exact Hnf | |].
  2: { simpl in Hk |- *. rewrite Hk. rewrite tx_bind_run.
       unfold createPaymentSuccessNotification, createPaymentNotification, tx_lift.
       rewrite Hnn. simpl.
       destruct (decide (txFault env = Some k)); [congruence | done]. }
  simpl. intros id row Hin. apply rowsOf_findMany in Hin. eauto.
Qed.

(** The notification is awaited inside the callback: when it rejects,
    the callback throws and the transaction is rolled back. *)
Lemma processPayment_notify_fault pid st last4 uid amt ext env w p :
  txFault env = None →
  notifyFault env = true →
  payments w !! pid = Some p →
  ∃ w', processPayment pid st last4 uid amt ext env w
        = (Throw NotificationError, w')
    ∧ payments w' = payments w ∧ statements w' = statements w.
Proof.
  intros Hnf Hnn Hp.
  assert (∃ w', processPayment pid st last4 uid amt ext env w
                = (Throw NotificationError, w')) as [w' Hrun].
  { unfold processPayment, transaction, processPaymentTx.
    rewrite tx_bind_run, tx_payment_update_run.
    destruct (decide (txFault env = Some (w, 0%nat).2)); [congruence |].
    simpl. rewrite Hp. simpl.
    destruct (decide (st = SUCCESS)) as [-> | Hst].
    - rewrite tx_bind_run, tx_statement_findMany_run.
      destruct (decide (txFault env = Some _)); [congruence |].
      rewrite tx_bind_run.
      edestruct (applyToStatements_total
                   (statement_findMany (pay_cardId (withStatus SUCCESS ext p))
                      (statements w)) amt env)
        as [k Hk]; [exact Hnf | |].
      2: { simpl in Hk |- *. rewrite Hk. rewrite tx_bind_run.
           unfold createPaymentSuccessNotification, createPaymentNotification.
           rewrite Hnn. simpl. eauto. }
      simpl. intros id row Hin. apply rowsOf_findMany in Hin. eauto.
    - rewrite tx_bind_run.
      unfold createPaymentFailedNotification, createPaymentNotification.
      rewrite Hnn. simpl. eauto. }
  exists w'. split; [exact Hrun |]. by eapply processPayment_throw.
Qed.

(** C9 as the specification states it fails for the notification: it is a
    side effect that takes part in the atomic unit.  With a
    notification helper that rejects, the webhook delivering SUCCESS
    answers with the error, the payment stays PENDING and the
    statements are as before. *)
Lemma notification_failure_rolls_back :
  let w := sampleWorld twoStatements {[ "p1" := samplePayment 700 PENDING ]} in
  let env := {| txFault := None; activityFault := false; notifyFault := true;
                randomSuccess := true |} in
  let b := {| wb_paymentId := "p1"; wb_status := "SUCCESS";
              wb_externalId := None |} in
  (webhookHandler b env w).1 = Failed NotificationError
  ∧ pay_status <$> payments (webhookHandler b env w).2 !! "p1" = Some PENDING
  ∧ statements (webhookHandler b env w).2 = twoStatements
  ∧ (processPayment "p1" SUCCESS "4242" 7 700 None env w).1
    = Throw NotificationError.
Proof. repeat split; by vm_compute. Qed.

(** C9 as the code has it.  A failure of the audit-activity write during
    a SUCCESS resolution is caught inside [logActivity] and printed:
    with the storage and the notification working, the resolution
    completes without an error, the payment is SUCCESS and the
    statements are updated as with a working audit write, and no
    activity row is written.  Under every environment the result and
    the tables of [processPayment] are the same with a failing and with
    a working audit write.  The notification is not isolated: it is
    awaited inside the callback of the transaction, so when the helper
    rejects, [processPayment] throws its error and the payments and the
    statements are as before.  With the audit write failing, a payment
    of 700 on statements of 300 and 500 ends SUCCESS, with the earlier
    statement paid and 100 left on the later one. *)
Theorem audit_failure_is_isolated :
  (∀ env w pid p last4 uid amt ext,
     activityFault env = true →
     txFault env = None →
     notifyFault env = false →
     payments w !! pid = Some p →
     ∃ w', processPayment pid SUCCESS last4 uid amt ext env w = (Ok tt, w')
       ∧ payments w' !! pid = Some (withStatus SUCCESS ext p)
       ∧ pay_status <$> payments w' !! pid = Some SUCCESS
       ∧ statements w' = statementsAfter SUCCESS amt p (statements w)
       ∧ activities w' = activities w
       ∧ logs w' = logs w ++ [LogActivityLoggingFailed uid;
                              LogPaymentProcessed pid SUCCESS]
       ∧ ∃ w'', processPayment pid SUCCESS last4 uid amt ext
                  (withActivityFault false env) w = (Ok tt, w'')
           ∧ sameTables w' w'')
  ∧ (∀ f env w pid st last4 uid amt ext,
       (processPayment pid st last4 uid amt ext (withActivityFault f env) w).1
       = (processPayment pid st last4 uid amt ext env w).1
       ∧ sameTables
           (processPayment pid st last4 uid amt ext
              (withActivityFault f env) w).2
           (processPayment pid st last4 uid amt ext env w).2)
  ∧ (∀ env w pid p st last4 uid amt ext,
       txFault env = None →
       notifyFault env = true →
       payments w !! pid = Some p →
       ∃ w', processPayment pid st last4 uid amt ext env w
             = (Throw NotificationError, w')
         ∧ payments w' = payments w ∧ statements w' = statements w)
  ∧ (let w' := (processPayment "p1" SUCCESS "4242" 7 700 None
                  {| txFault := None; activityFault := true;
                     notifyFault := false; randomSuccess := true |}
                  (sampleWorld twoStatements
                     {[ "p1" := samplePayment 700 PENDING ]})).2 in
     pay_status <$> payments w' !! "p1" = Some SUCCESS
     ∧ statements w'
       = {[ 2 := {| stmt_cardId := 1; dueDate := jan10; balance := 0;
                    isPaid := true |};
            1 := {| stmt_cardId := 1; dueDate := feb10; balance := 100;
                    isPaid := false |} ]}
     ∧ activities w' = []).
Proof.
  split; [| split; [intros; apply processPayment_activity |];
             split; [| by vm_compute]].
  2: { intros env w pid p st last4 uid amt ext Hnf Hnn Hp.
       by apply (processPayment_notify_fault pid st last4 uid amt ext env w p). }
  intros env w pid p last4 uid amt ext Haf Hnf Hnn Hp.
  rewrite (processPayment_success_run pid last4 uid amt ext env w p Hnf Hnn Hp).
  eexists. split; [reflexivity |].
  unfold logActivity, statementsAfter. rewrite Haf. simpl.
  split; [by rewrite lookup_insert_eq |].
  split; [by rewrite lookup_insert_eq |]. split; [done |]. split; [done |].
  split; [by rewrite <- app_assoc |].
  rewrite (processPayment_success_run pid last4 uid amt ext
             (withActivityFault false env) w p Hnf Hnn Hp).
  eexists. split; [reflexivity |]. by unfold logActivity, sameTables.
Qed.

Lemma audit_failure_is_isolated_witness :
  let w := sampleWorld twoStatements {[ "p1" := samplePayment 700 PENDING ]} in
  let env := {| txFault := None; activityFault := true; notifyFault := false;
                randomSuccess := true |} in
  let env' := {| txFault := None; activityFault := false; notifyFault := true;
                 randomSuccess := true |} in
  (activityFault env = true
   ∧ txFault env = None
   ∧ notifyFault env = false
   ∧ payments w !! "p1" = Some (samplePayment 700 PENDING)
   ∧ ∃ w', processPayment "p1" SUCCESS "4242" 7 700 None env w = (Ok tt, w')
       ∧ payments w' !! "p1"
         = Some (withStatus SUCCESS None (samplePayment 700 PENDING))
       ∧ pay_status <$> payments w' !! "p1" = Some SUCCESS
       ∧ statements w'
         = statementsAfter SUCCESS 700 (samplePayment 700 PENDING) (statements w)
       ∧ activities w' = activities w
       ∧ logs w' = logs w ++ [LogActivityLoggingFailed 7;
                              LogPaymentProcessed "p1" SUCCESS]
       ∧ ∃ w'', processPayment "p1" SUCCESS "4242" 7 700 None
                  (withActivityFault false env) w = (Ok tt, w'')
           ∧ sameTables w' w'')
  ∧ (txFault env' = None
     ∧ notifyFault env' = true
     ∧ ∃ w', processPayment "p1" SUCCESS "4242" 7 700 None env' w
             = (Throw NotificationError, w')
         ∧ payments w' = payments w ∧ statements w' = statements w).
Proof.
  intros w env env'. split.
  - split; [reflexivity |]. split; [reflexivity |]. split; [reflexivity |].
    split; [reflexivity |].
    apply (proj1 audit_failure_is_isolated env w "p1"
             (samplePayment 700 PENDING) "4242" 7 700 None
             eq_refl eq_refl eq_refl eq_refl).
  - split; [reflexivity |]. split; [reflexivity |].
    apply (proj1 (proj2 (proj2 audit_failure_is_isolated)) env' w "p1"
             (samplePayment 700 PENDING) SUCCESS "4242" 7 700 None
             eq_refl eq_refl eq_refl).
Defined.

(** ** Creation *)

Lemma outstandingBalance_statements c w1 w2 :
  statements w1 = statements w2 → outstandingBalance c w1 = outstandingBalance c w2.
Proof. unfold outstandingBalance. by intros ->. Qed.

(** A request that passes every check and is not short-circuited by the
    guard creates one PENDING payment under a new id and answers at
    once. *)
Lemma createPaymentHandler_creates req env w card :
  createPaymentSchema (req_body req) = true →
  card_findFirst (cardId (req_body req)) (req_userId req) w = Some card →
  card_status card = ACTIVE →
  amount (req_body req) ≤ outstandingBalance (cardId (req_body req)) w →
  idempotentMatch req w = None →
  ∃ id w',
    createPaymentHandler req env w
    = (Json 201
         {| r_paymentId := id; r_amount := amount (req_body req);
            r_method := method (req_body req); r_status := Some "pending";
            r_newBalance := outstandingBalance (cardId (req_body req)) w |}
         "Payment initiated successfully",
       w',
       Some {| d_paymentId := id;
               d_finalStatus := if randomSuccess env then SUCCESS else FAILED;
               d_last4 := card_last4 card; d_userId := req_userId req;
               d_amount := amount (req_body req) |})
    ∧ payments w !! id = None
    ∧ payments w' = <[id := pendingPayment req]> (payments w)
    ∧ statements w' = statements w
    ∧ cards w' = cards w
    ∧ hasIdempotencyKey w' = hasIdempotencyKey w.
Proof.
  intros Hschema Hcard Hactive Hamt Hmatch.
  assert (∀ w0, payments w0 = payments w → statements w0 = statements w →
                cards w0 = cards w → hasIdempotencyKey w0 = hasIdempotencyKey w →
            ∃ id w',
              createPending req card
                (outstandingBalance (cardId (req_body req)) w) env w0
              = (Json 201
                   {| r_paymentId := id; r_amount := amount (req_body req);
                      r_method := method (req_body req);
                      r_status := Some "pending";
                      r_newBalance := outstandingBalance (cardId (req_body req)) w |}
                   "Payment initiated successfully",
                 w',
                 Some {| d_paymentId := id;
                         d_finalStatus :=
                           if randomSuccess env then SUCCESS else FAILED;
                         d_last4 := card_last4 card; d_userId := req_userId req;
                         d_amount := amount (req_body req) |})
              ∧ payments w !! id = None
              ∧ payments w' = <[id := pendingPayment req]> (payments w)
              ∧ statements w' = statements w
              ∧ cards w' = cards w
              ∧ hasIdempotencyKey w' = hasIdempotencyKey w) as Hcreate.
  { intros w0 Hp Hs Hc Hk. unfold createPending, payment_create. simpl.
    rewrite Hp. eexists _, _. split; [reflexivity |].
    split; [apply not_elem_of_dom, is_fresh |]. by simpl. }
  unfold createPaymentHandler. rewrite Hschema, Hcard, Hactive. simpl.
  rewrite bool_decide_eq_false_2 by lia.
  unfold idempotentMatch in Hmatch.
  destruct (readIdempotencyKey (req_idempotencyHeader req)) as [key |];
    [| by apply Hcreate].
  destruct (payment_findFirst_byKey key w) as [[[id existing] |] | e];
    [done | by apply Hcreate | by apply Hcreate].
Qed.



(** ** Validation *)

Lemma createPaymentSchema_spec b :
  createPaymentSchema b = false ↔
  cardId b ≤ 0 ∨ amount b ≤ 0 ∨ 1000000 < amount b
  ∨ method b ∉ ["bank"; "card"; "instant"].
Proof.
  unfold createPaymentSchema.
  rewrite !andb_false_iff, !bool_decide_eq_false, !Z.nlt_ge, Z.nle_gt.
  tauto.
Qed.

Lemma card_findFirst_None cid uid w :
  card_findFirst cid uid w = None ↔
  ∀ c, cards w !! cid = Some c → card_userId c ≠ uid.
Proof.
  unfold card_findFirst.
  destruct (cards w !! cid) as [c |]; [| naive_solver].
  destruct (decide (card_userId c = uid)); naive_solver.
Qed.

(** C4 as the code has it.  The creation handler rejects a request,
    writing nothing and scheduling nothing, exactly when the body fails
    the schema (card id or amount not positive, amount above 1,000,000,
    method not one of bank, card, instant), or no card with that id
    belongs to the requesting user, or the card is not ACTIVE, or the
    amount exceeds the sum of the unpaid balances of the card.  With
    the other checks passed an amount above the sum is answered with a
    validation error, and without an unpaid statement the sum is 0. *)
Theorem creation_rejected_iff :
  ∀ req env w,
    let b := req_body req in
    let out := createPaymentHandler req env w in
    (accepted out.1.1 = false ↔
       (cardId b ≤ 0 ∨ amount b ≤ 0 ∨ 1000000 < amount b
        ∨ method b ∉ ["bank"; "card"; "instant"])
       ∨ (∀ c, cards w !! cardId b = Some c → card_userId c ≠ req_userId req)
       ∨ (∃ c, card_findFirst (cardId b) (req_userId req) w = Some c
               ∧ card_status c ≠ ACTIVE)
       ∨ outstandingBalance (cardId b) w < amount b)
    ∧ (accepted out.1.1 = false → out.1.2 = w ∧ out.2 = None)
    ∧ (createPaymentSchema b = true →
       (∃ c, card_findFirst (cardId b) (req_userId req) w = Some c
             ∧ card_status c = ACTIVE) →
       outstandingBalance (cardId b) w < amount b →
       out.1.1 = Failed (ValidationError
                           "Payment amount cannot exceed outstanding balance"))
    ∧ (statement_findMany (Some (cardId b)) (statements w) = [] →
       outstandingBalance (cardId b) w = 0).
Proof.
  intros req env w b out.
  assert (∀ card outstanding w0,
            accepted (createPending req card outstanding env w0).1.1 = true)
    as Hpending by done.
  subst out. unfold createPaymentHandler. fold b.
  pose proof (createPaymentSchema_spec b) as Hschema.
  pose proof (card_findFirst_None (cardId b) (req_userId req) w) as Hnone.
  destruct (createPaymentSchema b); simpl.
  2: { split; [split; [intros _; left; by apply Hschema | done] |].
       split; [done |]. split; [done |].
       unfold outstandingBalance. by intros ->. }
  assert (¬ (cardId b ≤ 0 ∨ amount b ≤ 0 ∨ 1000000 < amount b
             ∨ method b ∉ ["bank"; "card"; "instant"])) as Hvalid
    by (intros H; by apply Hschema in H).
  destruct (card_findFirst (cardId b) (req_userId req) w) as [card |]; simpl.
  2: { split; [split; [intros _; right; left; by apply Hnone | done] |].
       split; [done |].
       split; [by intros _ (? & ? & _) |].
       unfold outstandingBalance. by intros ->. }
  assert (¬ ∀ c, cards w !! cardId b = Some c → card_userId c ≠ req_userId req)
    as Hfound by (intros H; by apply Hnone in H).
  destruct (decide (card_status card = ACTIVE)) as [Hact | Hact].
  2: { rewrite bool_decide_eq_false_2 by done. simpl.
       split; [split; [intros _; right; right; left; by exists card | done] |].
       split; [done |].
       split; [intros _ (? & [= <-] & ?); done |].
       unfold outstandingBalance. by intros ->. }
  rewrite bool_decide_eq_true_2 by done. simpl.
  destruct (decide (amount b > outstandingBalance (cardId b) w)) as [Hgt | Hle].
  { rewrite bool_decide_eq_true_2 by done. simpl.
    split; [split; [intros _; right; right; right; lia | done] |].
    split; [done |]. split; [done |].
    unfold outstandingBalance. by intros ->. }
  rewrite bool_decide_eq_false_2 by done.
  assert (∀ o : Response * World * option Deferred,
            accepted o.1.1 = true →
            (accepted o.1.1 = false ↔
               (cardId b ≤ 0 ∨ amount b ≤ 0 ∨ 1000000 < amount b
                ∨ method b ∉ ["bank"; "card"; "instant"])
               ∨ (∀ c, cards w !! cardId b = Some c →
                       card_userId c ≠ req_userId req)
               ∨ (∃ c, Some card = Some c ∧ card_status c ≠ ACTIVE)
               ∨ outstandingBalance (cardId b) w < amount b)
            ∧ (accepted o.1.1 = false → o.1.2 = w ∧ o.2 = None)
            ∧ (true = true →
               (∃ c, Some card = Some c ∧ card_status c = ACTIVE) →
               outstandingBalance (cardId b) w < amount b →
               o.1.1 = Failed (ValidationError
                                 "Payment amount cannot exceed outstanding balance"))
            ∧ (statement_findMany (Some (cardId b)) (statements w) = [] →
               outstandingBalance (cardId b) w = 0)) as Hacc.
  { intros o Ho. rewrite Ho.
    split.
    - split; [done |].
      intros [H | [H | [(c & [= <-] & H) | H]]]; [done | done | done | lia].
    - split; [done |]. split; [intros; lia |].
      unfold outstandingBalance. by intros ->. }
  destruct (readIdempotencyKey (req_idempotencyHeader req)) as [key |];
    [| by apply Hacc].
  destruct (payment_findFirst_byKey key w) as [[[id existing] |] | e];
    by apply Hacc.
Qed.

Lemma creation_rejected_iff_witness :
  let w := sampleWorld (oneStatement 500) ∅ in
  let card := {| card_userId := 7; card_status := ACTIVE; card_last4 := "4242" |} in
  let req a := {| req_userId := 7;
                  req_body := {| cardId := 1; amount := a; method := "bank" |};
                  req_idempotencyHeader := None |} in
  outstandingBalance 1 w = 500
  ∧ createPaymentSchema (req_body (req 501)) = true
  ∧ (∃ c, card_findFirst 1 7 w = Some c ∧ card_status c = ACTIVE)
  ∧ outstandingBalance 1 w < 501
  ∧ (createPaymentHandler (req 501) noFault w).1.1
    = Failed (ValidationError "Payment amount cannot exceed outstanding balance")
  ∧ accepted (createPaymentHandler (req 501) noFault w).1.1 = false
  ∧ (createPaymentHandler (req 501) noFault w).1.2 = w
  ∧ (createPaymentHandler (req 501) noFault w).2 = None
  ∧ accepted (createPaymentHandler (req 500) noFault w).1.1 = true.
Proof.
  intros w card req.
  assert (outstandingBalance 1 w = 500) as Hout by (by vm_compute).
  assert (∃ c, card_findFirst 1 7 w = Some c ∧ card_status c = ACTIVE) as Hcard
    by (by exists card).
  split; [exact Hout |]. split; [reflexivity |]. split; [exact Hcard |].
  split; [rewrite Hout; lia |].
  assert (accepted (createPaymentHandler (req 501) noFault w).1.1 = false)
    as Hrej by (by vm_compute).
  split.
  { apply (creation_rejected_iff (req 501) noFault w);
      [reflexivity | exact Hcard
      | change (outstandingBalance 1 w < 501); rewrite Hout; lia]. }
  split; [exact Hrej |].
  destruct (proj1 (proj2 (creation_rejected_iff (req 501) noFault w)) Hrej)
    as [Hw Ht].
  split; [exact Hw |]. split; [exact Ht |]. by vm_compute.
Defined.

(** C4 as the specification states it fails: a request for exactly the
    outstanding balance of an ACTIVE card of the requesting user is
    rejected when that balance is above 1,000,000, although the amount
    does not exceed the balance and is positive. *)
Lemma creation_rejected_at_equal_amount :
  let w := sampleWorld (oneStatement 2000000) ∅ in
  let req := {| req_userId := 7;
                req_body := {| cardId := 1; amount := 2000000; method := "bank" |};
                req_idempotencyHeader := None |} in
  createPaymentHandler req noFault w = (InvalidRequest, w, None)
  ∧ accepted (createPaymentHandler req noFault w).1.1 = false
  ∧ amount (req_body req) = outstandingBalance 1 w
  ∧ ¬ (outstandingBalance 1 w < amount (req_body req)
       ∨ amount (req_body req) ≤ 0
       ∨ (∃ c, cards w !! 1 = Some c ∧ card_status c ≠ ACTIVE)
       ∨ (∀ c, cards w !! 1 = Some c → card_userId c ≠ 7)).
Proof.
  intros w req.
  assert (outstandingBalance 1 w = 2000000) as Hout by (by vm_compute).
  assert (cards w !! 1
          = Some {| card_userId := 7; card_status := ACTIVE;
                    card_last4 := "4242" |}) as Hcard by reflexivity.
  split; [by vm_compute |]. split; [by vm_compute |].
  split; [by rewrite Hout |].
  rewrite Hout. simpl amount.
  intros [H | [H | [(c & Hc & H) | H]]]; [lia | lia | |].
  - rewrite Hcard in Hc. injection Hc as <-. by apply H.
  - by apply (H _ Hcard).
Qed.

(** ** The idempotency guard *)

Lemma idempotentMatch_no_key req w key :
  readIdempotencyKey (req_idempotencyHeader req) = Some key →
  (∀ id p, payments w !! id = Some p → idempotencyKey p ≠ Some key) →
  idempotentMatch req w = None.
Proof.
  intros Hkey Hnone. unfold idempotentMatch, payment_findFirst_byKey.
  rewrite Hkey. destruct (hasIdempotencyKey w); [| done].
  destruct (filter _ _) as [| [id p] l] eqn:Hf; [done |].
  assert ((id, p) ∈ filter (λ row : string * Payment,
                              idempotencyKey row.2 = Some key)
                       (map_to_list (payments w))) as Hin
    by (rewrite Hf; left).
  apply list_elem_of_filter in Hin as [Hk Hin].
  apply elem_of_map_to_list in Hin. by apply Hnone in Hin.
Qed.

(** C5 as the specification states it fails: two requests with the same key
    and the same parameters create two payments, and the two answers
    name different payment ids. *)
Lemma same_key_creates_two_payments :
  let w := sampleWorld (oneStatement 500) ∅ in
  let req := {| req_userId := 7;
                req_body := {| cardId := 1; amount := 100; method := "bank" |};
                req_idempotencyHeader := Some "idemp_1" |} in
  let first := createPaymentHandler req noFault w in
  let second := createPaymentHandler req noFault first.1.2 in
  first.1.1
  = Json 201 {| r_paymentId := "0"; r_amount := 100; r_method := "bank";
                r_status := Some "pending"; r_newBalance := 500 |}
      "Payment initiated successfully"
  ∧ second.1.1
    = Json 201 {| r_paymentId := "1"; r_amount := 100; r_method := "bank";
                  r_status := Some "pending"; r_newBalance := 500 |}
        "Payment initiated successfully"
  ∧ size (payments second.1.2) = 2%nat.
Proof. by vm_compute. Qed.

(** C5 as the code has it.  The created Payment never carries the
    idempotency key.  Two requests with the same key that pass the
    checks, in a store where no Payment carries the key, each create a
    Payment of their own, and the answers name different ids.  A
    request answers with the projection of an existing Payment, creating
    none and scheduling nothing, when the lookup is supported and a
    stored Payment carries the key. *)
Theorem idempotency_key_is_not_stored :
  ∀ req env w card key,
    createPaymentSchema (req_body req) = true →
    card_findFirst (cardId (req_body req)) (req_userId req) w = Some card →
    card_status card = ACTIVE →
    amount (req_body req) ≤ outstandingBalance (cardId (req_body req)) w →
    readIdempotencyKey (req_idempotencyHeader req) = Some key →
    ((∀ id p, payments w !! id = Some p → idempotencyKey p ≠ Some key) →
     ∀ env2, ∃ d1 w1 t1 d2 w2 t2,
       createPaymentHandler req env w
       = (Json 201 d1 "Payment initiated successfully", w1, Some t1)
       ∧ createPaymentHandler req env2 w1
         = (Json 201 d2 "Payment initiated successfully", w2, Some t2)
       ∧ r_paymentId d1 ≠ r_paymentId d2
       ∧ payments w !! r_paymentId d1 = None
       ∧ payments w !! r_paymentId d2 = None
       ∧ payments w2
         = <[r_paymentId d2 := pendingPayment req]>
             (<[r_paymentId d1 := pendingPayment req]> (payments w)))
    ∧ (∀ id existing,
         payment_findFirst_byKey key w = Ok (Some (id, existing)) →
         createPaymentHandler req env w
         = (Json 200
              {| r_paymentId := id; r_amount := pay_amount existing;
                 r_method := pay_method existing;
                 r_status := normalizeStatus
                               (Some (status_string (pay_status existing)));
                 r_newBalance := outstandingBalance (cardId (req_body req)) w |}
              "Idempotent: returning existing payment",
            w, None)).
Proof.
  intros req env w card key Hschema Hcard Hactive Hamt Hkey. split.
  - intros Hnone env2.
    destruct (createPaymentHandler_creates req env w card
                Hschema Hcard Hactive Hamt
                (idempotentMatch_no_key req w key Hkey Hnone))
      as (id1 & w1 & Hrun1 & Hnew1 & Hpay1 & Hst1 & Hc1 & _).
    assert (card_findFirst (cardId (req_body req)) (req_userId req) w1
            = Some card) as Hcard1
      by (unfold card_findFirst in *; by rewrite Hc1).
    assert (amount (req_body req)
            ≤ outstandingBalance (cardId (req_body req)) w1) as Hamt1
      by (by rewrite (outstandingBalance_statements _ w1 w)).
    assert (∀ id p, payments w1 !! id = Some p → idempotencyKey p ≠ Some key)
      as Hnone1.
    { intros id p. rewrite Hpay1.
      destruct (decide (id1 = id)) as [<- | Hne].
      - rewrite lookup_insert_eq. by intros [= <-].
      - rewrite lookup_insert_ne by done. apply Hnone. }
    destruct (createPaymentHandler_creates req env2 w1 card
                Hschema Hcard1 Hactive Hamt1
                (idempotentMatch_no_key req w1 key Hkey Hnone1))
      as (id2 & w2 & Hrun2 & Hnew2 & Hpay2 & _).
    eexists _, w1, _, _, w2, _.
    split; [exact Hrun1 |]. split; [exact Hrun2 |]. simpl.
    assert (id1 ≠ id2) as Hne.
    { intros ->. rewrite Hpay1, lookup_insert_eq in Hnew2. done. }
    split; [done |]. split; [done |].
    split; [by rewrite Hpay1, lookup_insert_ne in Hnew2 |].
    by rewrite Hpay2, Hpay1.
  - intros id existing Hfound.
    unfold createPaymentHandler. rewrite Hschema, Hcard, Hactive. simpl.
    rewrite bool_decide_eq_false_2 by lia.
    by rewrite Hkey, Hfound, freshOutstanding_outstandingBalance.
Qed.

Lemma idempotency_key_is_not_stored_witness :
  let w := sampleWorld (oneStatement 500) ∅ in
  let req := {| req_userId := 7;
                req_body := {| cardId := 1; amount := 100; method := "bank" |};
                req_idempotencyHeader := Some "idemp_1" |} in
  let card := {| card_userId := 7; card_status := ACTIVE; card_last4 := "4242" |} in
  let keyed := {| pay_cardId := Some 1; pay_userId := 7; pay_amount := 100;
                  pay_method := "bank"; pay_status := SUCCESS;
                  externalId := None; idempotencyKey := Some "idemp_1" |} in
  let wk := sampleWorld (oneStatement 500) {[ "p9" := keyed ]} in
  createPaymentSchema (req_body req) = true
  ∧ card_findFirst 1 7 w = Some card
  ∧ card_status card = ACTIVE
  ∧ 100 ≤ outstandingBalance 1 w
  ∧ readIdempotencyKey (req_idempotencyHeader req) = Some "idemp_1"
  ∧ (∀ id p, payments w !! id = Some p → idempotencyKey p ≠ Some "idemp_1")
  ∧ ∃ d1 w1 t1 d2 w2 t2,
      createPaymentHandler req noFault w
      = (Json 201 d1 "Payment initiated successfully", w1, Some t1)
      ∧ createPaymentHandler req noFault w1
        = (Json 201 d2 "Payment initiated successfully", w2, Some t2)
      ∧ r_paymentId d1 ≠ r_paymentId d2
      ∧ payments w !! r_paymentId d1 = None
      ∧ payments w !! r_paymentId d2 = None
      ∧ payments w2
        = <[r_paymentId d2 := pendingPayment req]>
            (<[r_paymentId d1 := pendingPayment req]> (payments w))
      ∧ payment_findFirst_byKey "idemp_1" wk = Ok (Some ("p9", keyed))
      ∧ createPaymentHandler req noFault wk
        = (Json 200
             {| r_paymentId := "p9"; r_amount := 100; r_method := "bank";
                r_status := Some "success";
                r_newBalance := outstandingBalance 1 wk |}
             "Idempotent: returning existing payment",
           wk, None).
Proof.
  intros w req card keyed wk.
  assert (100 ≤ outstandingBalance 1 w) as Hamt by (by vm_compute).
  assert (100 ≤ outstandingBalance 1 wk) as Hamtk by (by vm_compute).
  assert (∀ id p, payments w !! id = Some p → idempotencyKey p ≠ Some "idemp_1")
    as Hnone by (intros id p Hl; simpl in Hl; by rewrite lookup_empty in Hl).
  assert (payment_findFirst_byKey "idemp_1" wk = Ok (Some ("p9", keyed)))
    as Hfound by reflexivity.
  split; [reflexivity |]. split; [reflexivity |]. split; [reflexivity |].
  split; [exact Hamt |]. split; [reflexivity |]. split; [exact Hnone |].
  destruct (proj1 (idempotency_key_is_not_stored req noFault w card "idemp_1"
                     eq_refl eq_refl eq_refl Hamt eq_refl) Hnone noFault)
    as (d1 & w1 & t1 & d2 & w2 & t2 & H1 & H2 & H3 & H4 & H5 & H6).
  exists d1, w1, t1, d2, w2, t2.
  split; [exact H1 |]. split; [exact H2 |]. split; [exact H3 |].
  split; [exact H4 |]. split; [exact H5 |]. split; [exact H6 |].
  split; [exact Hfound |].
  apply (proj2 (idempotency_key_is_not_stored req noFault wk card "idemp_1"
                  eq_refl eq_refl eq_refl Hamtk eq_refl) "p9" keyed Hfound).
Defined.

(** ** Resolving a payment again *)

(** C1 as the specification states it fails: the webhook delivering SUCCESS
    twice for the same payment applies the amount twice.  A payment of
    100 against a statement of 300 leaves 200 after the first delivery
    and 100 after the second. *)
Lemma duplicate_webhook_applies_twice :
  let w := sampleWorld (oneStatement 300) {[ "p1" := samplePayment 100 PENDING ]} in
  let b := {| wb_paymentId := "p1"; wb_status := "SUCCESS";
              wb_externalId := None |} in
  let first := webhookHandler b noFault w in
  let second := webhookHandler b noFault first.2 in
  first.1 = Acknowledged "Webhook processed successfully"
  ∧ pay_status <$> payments first.2 !! "p1" = Some SUCCESS
  ∧ balance <$> statements first.2 !! 1 = Some 200
  ∧ second.1 = Acknowledged "Webhook processed successfully"
  ∧ balance <$> statements second.2 !! 1 = Some 100
  ∧ statements second.2 ≠ statements first.2.
Proof.
  intros w b first second.
  assert (balance <$> statements first.2 !! 1 = Some 200) as H1
    by (by vm_compute).
  assert (balance <$> statements second.2 !! 1 = Some 100) as H2
    by (by vm_compute).
  split; [by vm_compute |]. split; [by vm_compute |]. split; [exact H1 |].
  split; [by vm_compute |]. split; [exact H2 |].
  intros Heq. rewrite Heq, H1 in H2. discriminate.
Qed.

(** C1 as the code has it.  [processPayment] does not read the status
    of the payment.  Resolving to SUCCESS a payment that is already
    SUCCESS or FAILED sets its status to SUCCESS and runs the loop over
    the statements of the card that are still unpaid once more.  On
    whole numbers, where the arithmetic of the code is exact, the
    outstanding balance goes down by min(A, outstanding balance) again.
    The table of statements is changed again when A is positive and the
    card still has an unpaid statement, and it is left as it is when A
    is 0 or no statement of the card is unpaid.  The webhook delivering
    SUCCESS twice for a payment of 100 on a statement of 100 pays the
    statement off at the first delivery and changes no statement at the
    second. *)
Theorem resolution_is_applied_again :
  (∀ env w pid p c last4 uid amt ext,
     txFault env = None →
     notifyFault env = false →
     payments w !! pid = Some p →
     pay_status p ≠ PENDING →
     pay_cardId p = Some c →
     0 ≤ amt →
     nonNegative (statements w) →
     ∃ w', processPayment pid SUCCESS last4 uid amt ext env w = (Ok tt, w')
       ∧ pay_status <$> payments w' !! pid = Some SUCCESS
       ∧ outstandingBalance c w'
         = outstandingBalance c w - Z.min amt (outstandingBalance c w)
       ∧ totalBalance w'
         = totalBalance w - Z.min amt (outstandingBalance c w)
       ∧ (0 < amt →
          (∃ id row, statements w !! id = Some row
             ∧ isUnpaidOf (Some c) (id, row)) →
          statements w' ≠ statements w)
       ∧ (amt = 0
          ∨ (∀ id row, statements w !! id = Some row →
               ¬ isUnpaidOf (Some c) (id, row)) →
          statements w' = statements w))
  ∧ (let w := sampleWorld (oneStatement 100)
                {[ "p1" := samplePayment 100 PENDING ]} in
     let b := {| wb_paymentId := "p1"; wb_status := "SUCCESS";
                 wb_externalId := None |} in
     let first := webhookHandler b noFault w in
     let second := webhookHandler b noFault first.2 in
     statements first.2
     = {[ 1 := {| stmt_cardId := 1; dueDate := jan10; balance := 0;
                  isPaid := true |} ]}
     ∧ pay_status <$> payments first.2 !! "p1" = Some SUCCESS
     ∧ second.1 = Acknowledged "Webhook processed successfully"
     ∧ statements second.2 = statements first.2
     ∧ payments second.2 = payments first.2).
Proof.
  split; [| by vm_compute].
  intros env w pid p c last4 uid amt ext Hnf Hnn Hp _ Hc Hamt Hpos.
  rewrite (processPayment_success_run pid last4 uid amt ext env w p Hnf Hnn Hp).
  eexists. split; [reflexivity |].
  destruct (settle_findMany_sums c amt (statements w) Hamt Hpos) as [Hout Htot].
  pose proof (settle_findMany_changed (Some c) amt (statements w)) as Hchg.
  unfold totalBalance. rewrite !outstandingBalance_sumOver.
  destruct (logActivity_tables uid
              (createActivityData_payment amt "bank" SUCCESS) env
              (add_notification
                 {| ntf_userId := uid; ntf_success := true; ntf_amount := amt;
                    ntf_last4 := last4 |}
                 (set_statements
                    (settle amt
                       (statement_findMany (pay_cardId p) (statements w))
                       (statements w))
                    (set_payments
                       (<[pid := withStatus SUCCESS ext p]> (payments w)) w))))
    as (Hs & Hpay & _).
  simpl. rewrite Hs, Hpay. simpl. rewrite Hc, lookup_insert_eq.
  split; [done |]. split; [exact Hout |]. split; [exact Htot |]. split.
  - intros Hlt Hex. apply Hchg. by split.
  - intros Hno.
    destruct (decide (settle amt (statement_findMany (Some c) (statements w))
                        (statements w) = statements w)) as [Heq | Hne];
      [exact Heq |].
    apply Hchg in Hne as [Hlt (id & row & Hl & Hu)].
    destruct Hno as [-> | Hno]; [lia | by destruct (Hno id row Hl)].
Qed.

Lemma resolution_is_applied_again_witness :
  let w := sampleWorld (oneStatement 200) {[ "p1" := samplePayment 100 SUCCESS ]} in
  txFault noFault = None
  ∧ notifyFault noFault = false
  ∧ payments w !! "p1" = Some (samplePayment 100 SUCCESS)
  ∧ pay_status (samplePayment 100 SUCCESS) ≠ PENDING
  ∧ pay_cardId (samplePayment 100 SUCCESS) = Some 1
  ∧ 0 ≤ 100
  ∧ nonNegative (statements w)
  ∧ ∃ w', processPayment "p1" SUCCESS "4242" 7 100 None noFault w = (Ok tt, w')
      ∧ pay_status <$> payments w' !! "p1" = Some SUCCESS
      ∧ outstandingBalance 1 w'
        = outstandingBalance 1 w - Z.min 100 (outstandingBalance 1 w)
      ∧ totalBalance w' = totalBalance w - Z.min 100 (outstandingBalance 1 w)
      ∧ (0 < 100 →
         (∃ id row, statements w !! id = Some row
            ∧ isUnpaidOf (Some 1) (id, row)) →
         statements w' ≠ statements w)
      ∧ (100 = 0
         ∨ (∀ id row, statements w !! id = Some row →
              ¬ isUnpaidOf (Some 1) (id, row)) →
         statements w' = statements w).
Proof.
  intros w.
  assert (nonNegative (statements w)) as Hnn.
  { intros id row Hl. simpl in Hl. unfold oneStatement in Hl.
    apply lookup_singleton_Some in Hl as [_ <-]. simpl. lia. }
  split; [reflexivity |]. split; [reflexivity |]. split; [reflexivity |].
  split; [discriminate |]. split; [reflexivity |]. split; [lia |].
  split; [exact Hnn |].
  apply (proj1 resolution_is_applied_again noFault w "p1"
           (samplePayment 100 SUCCESS) 1 "4242" 7 100 None);
    [reflexivity | reflexivity | reflexivity | discriminate | reflexivity
    | lia | exact Hnn].
Defined.

(** * Further properties *)

(** ** Expiration times *)











(** ** The refresh tokens *)

Lemma findUnique_Some token (m : gmap Z RefreshToken) id row :
  refreshToken_findUnique token m = Some (id, row) →
  m !! id = Some row ∧ rt_token row = token.
Proof.
  unfold refreshToken_findUnique. intros H%head_Some_elem_of.
  apply list_elem_of_filter in H as [Ht Hin].
  by apply elem_of_map_to_list in Hin.
Qed.

Lemma findUnique_None token (m : gmap Z RefreshToken) :
  refreshToken_findUnique token m = None
  ↔ ∀ id row, m !! id = Some row → rt_token row ≠ token.
Proof.
  unfold refreshToken_findUnique. rewrite head_None. split.
  - intros Hnil id row Hl Ht.
    assert ((id, row) ∈ filter (hasToken token) (map_to_list m)) as Hin.
    { apply list_elem_of_filter. split; [done | by apply elem_of_map_to_list]. }
    rewrite Hnil in Hin. by apply elem_of_nil in Hin.
  - intros Hno.
    destruct (filter (hasToken token) (map_to_list m)) as [| [id row] l] eqn:E;
      [done |].
    assert ((id, row) ∈ filter (hasToken token) (map_to_list m)) as Hin.
    { rewrite E. apply list_elem_of_here. }
    apply list_elem_of_filter in Hin as [Ht Hin].
    apply elem_of_map_to_list in Hin. by destruct (Hno id row Hin).
Qed.

Lemma findUnique_unique (m : gmap Z RefreshToken) id row :
  uniqueTokens m → m !! id = Some row →
  refreshToken_findUnique (rt_token row) m = Some (id, row).
Proof.
  intros Hu Hl.
  destruct (refreshToken_findUnique (rt_token row) m) as [[id' row'] |] eqn:E.
  - apply findUnique_Some in E as [Hl' Ht].
    assert (id' = id) as -> by (by eapply Hu).
    by simplify_eq.
  - rewrite findUnique_None in E. by destruct (E id row Hl).
Qed.

Lemma uniqueTokens_subseteq (m m' : gmap Z RefreshToken) :
  m' ⊆ m → uniqueTokens m → uniqueTokens m'.
Proof.
  intros Hsub Hu i j r1 r2 H1 H2.
  apply (Hu i j r1 r2); by eapply lookup_weaken.
Qed.

(** A part of the table that keeps the rows of a token answers the
    lookup of that token as the table does. *)
Lemma findUnique_subseteq token (m m' : gmap Z RefreshToken) :
  uniqueTokens m → m' ⊆ m →
  (∀ id row, m !! id = Some row → rt_token row = token → m' !! id = Some row) →
  refreshToken_findUnique token m' = refreshToken_findUnique token m.
Proof.
  intros Hu Hsub Hkeep.
  destruct (refreshToken_findUnique token m) as [[id row] |] eqn:E.
  - apply findUnique_Some in E as [Hl <-].
    apply findUnique_unique; [by eapply uniqueTokens_subseteq | by apply Hkeep].
  - rewrite findUnique_None in E. apply findUnique_None.
    intros id row Hl. apply (E id). by eapply lookup_weaken.
Qed.

Lemma validateRefreshToken_result token now fault st :
  (validateRefreshToken token now fault st).1 =
  if decide (fault = Some 0%nat) then None
  else match refreshToken_findUnique token (refreshTokens st) with
       | Some (_, row) =>
           if decide (rt_expiresAt row < now) then None
           else Some (rt_userId row)
       | None => None
       end.
Proof.
  unfold validateRefreshToken. case_decide; [done |].
  destruct (refreshToken_findUnique token (refreshTokens st)) as [[id row] |];
    [| done].
  repeat case_decide; done.
Qed.

Lemma refreshToken_create_Some fault row st st' :
  refreshToken_create fault row st = Some st' →
  fault = false ∧ rt_userId row ∈ users st
  ∧ refreshToken_findUnique (rt_token row) (refreshTokens st) = None
  ∧ st' = set_refreshTokens
            (<[fresh (dom (refreshTokens st)) := row]> (refreshTokens st)) st.
Proof.
  unfold refreshToken_create. destruct fault; [done |].
  destruct (bool_decide (rt_userId row ∈ users st)) eqn:Hu; [| done].
  apply bool_decide_eq_true in Hu. simpl.
  destruct (bool_decide (is_Some _)) eqn:Ht; [done |].
  apply bool_decide_eq_false in Ht. rewrite <- eq_None_not_Some in Ht.
  by intros [= <-].
Qed.



Lemma uniqueTokens_insert_new (m : gmap Z RefreshToken) id row :
  uniqueTokens m →
  refreshToken_findUnique (rt_token row) m = None →
  uniqueTokens (<[id := row]> m).
Proof.
  intros Hu Hno. rewrite findUnique_None in Hno. intros i j r1 r2 H1 H2 Ht.
  destruct (decide (i = id)) as [-> | Hi], (decide (j = id)) as [-> | Hj];
    [done | | |].
  - rewrite lookup_insert_eq in H1. rewrite lookup_insert_ne in H2 by done.
    simplify_eq. by destruct (Hno j r2 H2).
  - rewrite lookup_insert_eq in H2. rewrite lookup_insert_ne in H1 by done.
    simplify_eq. by destruct (Hno i r1 H1).
  - rewrite lookup_insert_ne in H1, H2 by done. by eapply Hu.
Qed.



Lemma createRefreshToken_unique cfg tok now fault uid st :
  uniqueTokens (refreshTokens st) →
  uniqueTokens (refreshTokens (createRefreshToken cfg tok now fault uid st).2).
Proof.
  intros Hu. unfold createRefreshToken.
  destruct (parseExpirationTime cfg) as [ms | e]; [| done].
  destruct (refreshToken_create _ _ st) as [st' |] eqn:Hc; [| done].
  apply refreshToken_create_Some in Hc as (_ & _ & Hno & ->).
  by apply uniqueTokens_insert_new.
Qed.

Lemma validateRefreshToken_subseteq tok now fault st :
  refreshTokens (validateRefreshToken tok now fault st).2 ⊆ refreshTokens st.
Proof.
  unfold validateRefreshToken. case_decide; [done |].
  destruct (refreshToken_findUnique tok (refreshTokens st)) as [[id row] |];
    [| done].
  repeat case_decide; try done. apply delete_subseteq.
Qed.

Lemma revokeRefreshToken_subseteq tok fault st :
  refreshTokens (revokeRefreshToken tok fault st) ⊆ refreshTokens st.
Proof.
  unfold revokeRefreshToken. destruct fault; [done |].
  destruct (refreshToken_findUnique tok (refreshTokens st)) as [[id row] |];
    [| done].
  apply delete_subseteq.
Qed.

(** X4. The five operations on the table of refresh tokens keep the
    tokens of its rows pairwise different, under every argument and
    every fault. *)
Theorem token_index_is_kept st :
  uniqueTokens (refreshTokens st) →
  (∀ cfg tok now fault uid,
     uniqueTokens (refreshTokens (createRefreshToken cfg tok now fault uid st).2))
  ∧ (∀ tok now fault,
       uniqueTokens (refreshTokens (validateRefreshToken tok now fault st).2))
  ∧ (∀ tok fault, uniqueTokens (refreshTokens (revokeRefreshToken tok fault st)))
  ∧ (∀ uid fault,
       uniqueTokens (refreshTokens (revokeAllUserRefreshTokens uid fault st).2))
  ∧ (∀ now fault,
       uniqueTokens (refreshTokens (cleanupExpiredTokens now fault st))).
Proof.
  intros Hu. split; [intros; by apply createRefreshToken_unique |].
  split.
  { intros. eapply uniqueTokens_subseteq;
      [apply validateRefreshToken_subseteq | done]. }
  split.
  { intros. eapply uniqueTokens_subseteq;
      [apply revokeRefreshToken_subseteq | done]. }
  split.
  - intros uid fault. unfold revokeAllUserRefreshTokens.
    destruct fault; [done |].
    eapply uniqueTokens_subseteq; [apply map_filter_subseteq | done].
  - intros now fault. unfold cleanupExpiredTokens. destruct fault; [done |].
    eapply uniqueTokens_subseteq; [apply map_filter_subseteq | done].
Qed.

(** X5. On a table with pairwise different tokens and with a working
    storage, [validateRefreshToken] answers with a user exactly when a
    row carries the token, belongs to that user and has not expired;
    the table after it is the table before it without the row of the
    token if that has expired, and the users are as before. *)
Theorem validateRefreshToken_spec st token now :
  uniqueTokens (refreshTokens st) →
  (∀ u, (validateRefreshToken token now None st).1 = Some u
        ↔ ∃ id row, refreshTokens st !! id = Some row
            ∧ rt_token row = token ∧ rt_userId row = u
            ∧ now ≤ rt_expiresAt row)
  ∧ (∀ id row,
       refreshTokens (validateRefreshToken token now None st).2 !! id = Some row
       ↔ refreshTokens st !! id = Some row
         ∧ ¬ (rt_token row = token ∧ rt_expiresAt row < now))
  ∧ users (validateRefreshToken token now None st).2 = users st.
Proof.
  intros Hu. split; [| split].
  - intros u. rewrite validateRefreshToken_result. rewrite decide_False by done.
    split.
    + destruct (refreshToken_findUnique token (refreshTokens st))
        as [[id row] |] eqn:E; [| done].
      apply findUnique_Some in E as [Hl Ht]. case_decide; [done |].
      intros [= <-]. exists id, row. repeat split; (done || lia).
    + intros (id & row & Hl & <- & <- & Hlive).
      rewrite (findUnique_unique _ id row) by done.
      rewrite decide_False by lia. done.
  - intros id row. unfold validateRefreshToken. rewrite decide_False by done.
    destruct (refreshToken_findUnique token (refreshTokens st))
      as [[id' row'] |] eqn:E.
    + apply findUnique_Some in E as [Hl' Ht']. case_decide as Hexp.
      * rewrite decide_False by done. cbn [snd refreshTokens set_refreshTokens].
        rewrite lookup_delete_Some. split.
        -- intros [Hne Hl]. split; [done |]. intros [Ht _]. apply Hne.
           apply (Hu id' id row' row); congruence.
        -- intros [Hl Hn]. split; [| done]. intros <-. simplify_eq. tauto.
      * cbn [snd]. split; [| tauto]. intros Hl. split; [done |].
        intros [Ht Hlt]. assert (id' = id) as -> by
          (apply (Hu id' id row' row); congruence).
        simplify_eq. lia.
    + rewrite findUnique_None in E. cbn [snd]. split; [| tauto].
      intros Hl. split; [done |]. intros [Ht _]. by destruct (E id row Hl).
  - unfold validateRefreshToken. rewrite decide_False by done.
    destruct (refreshToken_findUnique token (refreshTokens st)) as [[id' row'] |];
      [| done].
    repeat case_decide; done.
Qed.

Lemma sampleTokens_unique : uniqueTokens (refreshTokens sampleStore).
Proof.
  intros i j r1 r2 H1 H2. simpl in H1, H2. unfold sampleTokens in H1, H2.
  apply lookup_insert_Some in H1 as [[<- <-] | [_ H1]];
    apply lookup_insert_Some in H2 as [[<- <-] | [_ H2]];
    try apply lookup_singleton_Some in H1 as [<- <-];
    try apply lookup_singleton_Some in H2 as [<- <-];
    done.
Qed.

Lemma token_index_is_kept_witness :
  uniqueTokens (refreshTokens sampleStore)
  ∧ (∀ cfg tok now fault uid,
       uniqueTokens
         (refreshTokens (createRefreshToken cfg tok now fault uid sampleStore).2))
  ∧ (∀ tok now fault,
       uniqueTokens (refreshTokens (validateRefreshToken tok now fault sampleStore).2))
  ∧ (∀ tok fault,
       uniqueTokens (refreshTokens (revokeRefreshToken tok fault sampleStore)))
  ∧ (∀ uid fault,
       uniqueTokens
         (refreshTokens (revokeAllUserRefreshTokens uid fault sampleStore).2))
  ∧ (∀ now fault,
       uniqueTokens (refreshTokens (cleanupExpiredTokens now fault sampleStore))).
Proof.
  split; [exact sampleTokens_unique |].
  apply (token_index_is_kept sampleStore sampleTokens_unique).
Defined.

Lemma validateRefreshToken_spec_witness :
  uniqueTokens (refreshTokens sampleStore)
  ∧ (∀ u, (validateRefreshToken "aa" 6000 None sampleStore).1 = Some u
          ↔ ∃ id row, refreshTokens sampleStore !! id = Some row
              ∧ rt_token row = "aa" ∧ rt_userId row = u
              ∧ 6000 ≤ rt_expiresAt row)
  ∧ (∀ id row,
       refreshTokens (validateRefreshToken "aa" 6000 None sampleStore).2 !! id
       = Some row
       ↔ refreshTokens sampleStore !! id = Some row
         ∧ ¬ (rt_token row = "aa" ∧ rt_expiresAt row < 6000))
  ∧ users (validateRefreshToken "aa" 6000 None sampleStore).2 = users sampleStore.
Proof.
  split; [exact sampleTokens_unique |].
  apply (validateRefreshToken_spec sampleStore "aa" 6000 sampleTokens_unique).
Defined.

(** X6. After [revokeRefreshToken] with a working storage the token
    validates to null at every time, and every other token validates
    as before. *)
Theorem revoked_token_is_invalid st token :
  uniqueTokens (refreshTokens st) →
  (∀ now fault,
     (validateRefreshToken token now fault (revokeRefreshToken token false st)).1
     = None)
  ∧ (∀ other now fault,
       other ≠ token →
       (validateRefreshToken other now fault (revokeRefreshToken token false st)).1
       = (validateRefreshToken other now fault st).1).
Proof.
  intros Hu. unfold revokeRefreshToken. split.
  - intros now fault. rewrite validateRefreshToken_result.
    case_decide; [done |].
    destruct (refreshToken_findUnique token (refreshTokens st))
      as [[id row] |] eqn:E.
    + apply findUnique_Some in E as [Hl Ht].
      cbn [refreshTokens set_refreshTokens].
      rewrite (proj2 (findUnique_None token _)); [done |].
      intros id' row' [Hne Hl']%lookup_delete_Some Ht'. apply Hne.
      apply (Hu id id' row row'); congruence.
    + by rewrite E.
  - intros other now fault Hne. rewrite !validateRefreshToken_result.
    case_decide; [done |].
    destruct (refreshToken_findUnique token (refreshTokens st))
      as [[id row] |] eqn:E; [| done].
    apply findUnique_Some in E as [Hl Ht].
    cbn [refreshTokens set_refreshTokens].
    rewrite (findUnique_subseteq other (refreshTokens st)); [done | done | |].
    + apply delete_subseteq.
    + intros id' row' Hl' Ht'. apply lookup_delete_Some. split; [| done].
      intros <-. by simplify_eq.
Qed.

Lemma revoked_token_is_invalid_witness :
  uniqueTokens (refreshTokens sampleStore)
  ∧ (∀ now fault,
       (validateRefreshToken "bb" now fault
          (revokeRefreshToken "bb" false sampleStore)).1 = None)
  ∧ (∀ other now fault,
       other ≠ "bb" →
       (validateRefreshToken other now fault
          (revokeRefreshToken "bb" false sampleStore)).1
       = (validateRefreshToken other now fault sampleStore).1).
Proof.
  split; [exact sampleTokens_unique |].
  apply (revoked_token_is_invalid sampleStore "bb" sampleTokens_unique).
Defined.

(** X7. [revokeAllUserRefreshTokens] with a working storage returns,
    and after it no token validates to that user, while a token that
    validated to another user still does. *)
Theorem revokeAll_invalidates_user st userId :
  uniqueTokens (refreshTokens st) →
  (revokeAllUserRefreshTokens userId false st).1 = Returns tt
  ∧ (∀ token now fault,
       (validateRefreshToken token now fault
          (revokeAllUserRefreshTokens userId false st).2).1 ≠ Some userId)
  ∧ (∀ token now fault u,
       u ≠ userId →
       (validateRefreshToken token now fault st).1 = Some u →
       (validateRefreshToken token now fault
          (revokeAllUserRefreshTokens userId false st).2).1 = Some u).
Proof.
  intros Hu. unfold revokeAllUserRefreshTokens. cbn [fst snd].
  split; [done |]. split.
  - intros token now fault. rewrite validateRefreshToken_result.
    case_decide; [done |]. cbn [refreshTokens set_refreshTokens].
    destruct (refreshToken_findUnique token _) as [[id row] |] eqn:E; [| done].
    apply findUnique_Some in E as [Hl _].
    apply map_lookup_filter_Some in Hl as [_ Hne]. simpl in Hne.
    case_decide; [done |]. congruence.
  - intros token now fault u Hne. rewrite !validateRefreshToken_result.
    case_decide; [done |]. cbn [refreshTokens set_refreshTokens].
    destruct (refreshToken_findUnique token (refreshTokens st))
      as [[id row] |] eqn:E; [| done].
    apply findUnique_Some in E as [Hl <-].
    case_decide; [done |]. intros [= Hrow].
    rewrite (findUnique_unique _ id row).
    + rewrite decide_False by done. congruence.
    + eapply uniqueTokens_subseteq; [apply map_filter_subseteq | done].
    + apply map_lookup_filter_Some. split; [done |]. simpl. congruence.
Qed.

Lemma revokeAll_invalidates_user_witness :
  uniqueTokens (refreshTokens sampleStore)
  ∧ (revokeAllUserRefreshTokens 7 false sampleStore).1 = Returns tt
  ∧ (∀ token now fault,
       (validateRefreshToken token now fault
          (revokeAllUserRefreshTokens 7 false sampleStore).2).1 ≠ Some 7)
  ∧ (∀ token now fault u,
       u ≠ 7 →
       (validateRefreshToken token now fault sampleStore).1 = Some u →
       (validateRefreshToken token now fault
          (revokeAllUserRefreshTokens 7 false sampleStore).2).1 = Some u).
Proof.
  split; [exact sampleTokens_unique |].
  apply (revokeAll_invalidates_user sampleStore 7 sampleTokens_unique).
Defined.

(** X8. [cleanupExpiredTokens] does not change what
    [validateRefreshToken] answers for any token, at the time of the
    cleanup or later, whether the cleanup reaches the storage or not. *)
Theorem cleanup_keeps_validation st now fault token t vfault :
  uniqueTokens (refreshTokens st) →
  now ≤ t →
  (validateRefreshToken token t vfault (cleanupExpiredTokens now fault st)).1
  = (validateRefreshToken token t vfault st).1.
Proof.
  intros Hu Ht. unfold cleanupExpiredTokens. destruct fault; [done |].
  rewrite !validateRefreshToken_result. case_decide; [done |].
  cbn [refreshTokens set_refreshTokens].
  destruct (refreshToken_findUnique token (refreshTokens st))
    as [[id row] |] eqn:E.
  - apply findUnique_Some in E as [Hl <-].
    destruct (decide (rt_expiresAt row < now)) as [Hexp | Hlive].
    + rewrite (proj2 (findUnique_None (rt_token row) _)).
      * rewrite decide_True by lia. done.
      * intros id' row' [Hl' Hok]%map_lookup_filter_Some Htok. simpl in Hok.
        assert (id = id') as <- by (apply (Hu id id' row row'); congruence).
        by simplify_eq.
    + rewrite (findUnique_unique _ id row); [done | |].
      * eapply uniqueTokens_subseteq; [apply map_filter_subseteq | done].
      * by apply map_lookup_filter_Some.
  - rewrite (proj2 (findUnique_None token _)); [done |].
    rewrite findUnique_None in E.
    intros id' row' [Hl' _]%map_lookup_filter_Some. by apply (E id').
Qed.

Lemma cleanup_keeps_validation_witness :
  uniqueTokens (refreshTokens sampleStore)
  ∧ 6000 ≤ 7000
  ∧ (validateRefreshToken "bb" 7000 None
       (cleanupExpiredTokens 6000 false sampleStore)).1
    = (validateRefreshToken "bb" 7000 None sampleStore).1.
Proof.
  split; [exact sampleTokens_unique |]. split; [lia |].
  apply (cleanup_keeps_validation sampleStore 6000 false "bb" 7000 None
           sampleTokens_unique); lia.
Defined.

(** ** Access tokens *)

Lemma property_weaken (obj obj' : gmap string JsValue) key v :
  obj ⊆ obj' → obj !! key = Some v → property obj' key = v.
Proof.
  intros Hsub Hl. unfold property.
  by rewrite (lookup_weaken _ _ _ _ Hl Hsub).
Qed.

(** X9. Signing and verifying an access token.  When [jwt.verify]
    gives back an object that holds the four claims handed to
    [jwt.sign], whatever else it holds, [verifyAccessToken] answers with
    the payload the token was generated for, except for a user id 0,
    which it answers with null. *)
Theorem access_token_round_trip jwt_sign jwt_verify payload token obj :
  generateAccessToken jwt_sign payload = Some token →
  jwt_verify token = VerifiedObject obj →
  payloadObject payload ⊆ obj →
  verifyAccessToken jwt_verify token
  = if decide (tp_userId payload = 0) then None else Some payload.
Proof.
  intros _ Hv Hsub. unfold verifyAccessToken. rewrite Hv.
  rewrite (property_weaken _ _ "userId" (JNumber (tp_userId payload)) Hsub)
    by done.
  rewrite (property_weaken _ _ "email" (JString (tp_email payload)) Hsub)
    by done.
  rewrite (property_weaken _ _ "name" (JString (tp_name payload)) Hsub)
    by done.
  rewrite (property_weaken _ _ "isAdmin" (JBool (tp_isAdmin payload)) Hsub)
    by done.
  cbn [nullish]. destruct payload as [uid email name adm]. simpl.
  case_decide as Hz; [by rewrite Hz |]. by destruct uid.
Qed.

Lemma access_token_round_trip_witness :
  let payload := {| tp_userId := 7; tp_email := "a@b.c"; tp_name := "Asha";
                    tp_isAdmin := true |} in
  let obj := <["exp" := JNumber 900]> (payloadObject payload) in
  let jwt_sign := λ _ : gmap string JsValue, Some "token" in
  let jwt_verify := λ _ : string, VerifiedObject obj in
  generateAccessToken jwt_sign payload = Some "token"
  ∧ jwt_verify "token" = VerifiedObject obj
  ∧ payloadObject payload ⊆ obj
  ∧ verifyAccessToken jwt_verify "token"
    = if decide (tp_userId payload = 0) then None else Some payload.
Proof.
  intros payload obj jwt_sign jwt_verify.
  assert (payloadObject payload ⊆ obj) as Hsub
    by (apply insert_subseteq; reflexivity).
  split; [reflexivity |]. split; [reflexivity |]. split; [exact Hsub |].
  apply (access_token_round_trip jwt_sign jwt_verify payload "token" obj);
    [reflexivity | reflexivity | exact Hsub].
Defined.



(** ** Reading payments *)

Lemma card_findFirst_Some c u w card :
  card_findFirst c u w = Some card →
  cards w !! c = Some card ∧ card_userId card = u.
Proof.
  unfold card_findFirst. destruct (cards w !! c) as [card' |]; [| done].
  case_decide; [| done]. by intros [= ->].
Qed.

Lemma payment_findFirst_own pid u w p :
  payments w !! pid = Some p → pay_userId p = u →
  payment_findFirst pid u w = Some p.
Proof.
  intros Hl Hu. unfold payment_findFirst. rewrite Hl.
  by rewrite decide_True.
Qed.

Lemma payment_findFirst_foreign pid u w p :
  payments w !! pid = Some p → pay_userId p ≠ u →
  payment_findFirst pid u w = None.
Proof.
  intros Hl Hu. unfold payment_findFirst. rewrite Hl.
  by rewrite decide_False.
Qed.

(** X11. Reading a payment after its creation.  After a creation
    that is accepted, the detail and the receipt of the new payment
    answer its owner with the status pending, the amount, the method
    and the last four digits of the card, and the receipt says that the
    payment is not completed; every other user gets the error
    that the payment is not found. *)
Theorem created_payment_is_readable req env w card :
  createPaymentSchema (req_body req) = true →
  card_findFirst (cardId (req_body req)) (req_userId req) w = Some card →
  card_status card = ACTIVE →
  amount (req_body req) ≤ outstandingBalance (cardId (req_body req)) w →
  idempotentMatch req w = None →
  ∃ data w' task,
    createPaymentHandler req env w
    = (Json 201 data "Payment initiated successfully", w', Some task)
    ∧ getPayment (r_paymentId data) (req_userId req) w'
      = Ok {| pd_id := r_paymentId data; pd_amount := amount (req_body req);
              pd_method := method (req_body req); pd_status := "pending";
              pd_last4 := Some (card_last4 card); pd_externalId := None |}
    ∧ getReceipt (r_paymentId data) (req_userId req) w'
      = Ok {| rc_paymentId := r_paymentId data;
              rc_amount := amount (req_body req);
              rc_method := method (req_body req); rc_status := "pending";
              rc_cardLast4 := Some (card_last4 card); rc_externalId := None;
              rc_message := "Payment not completed" |}
    ∧ ∀ u, u ≠ req_userId req →
        getPayment (r_paymentId data) u w'
        = Throw (NotFoundError "Payment not found")
        ∧ getReceipt (r_paymentId data) u w'
          = Throw (NotFoundError "Payment not found").
Proof.
  intros Hs Hc Ha Hamt Hi.
  destruct (createPaymentHandler_creates req env w card Hs Hc Ha Hamt Hi)
    as (id & w' & Hrun & Hnew & Hpay & Hst & Hcards & _).
  apply card_findFirst_Some in Hc as [Hcard _].
  assert (payments w' !! id = Some (pendingPayment req)) as Hl
    by (by rewrite Hpay, lookup_insert_eq).
  assert (payment_card (pendingPayment req) w' = Some card) as Hpc
    by (unfold payment_card; simpl; by rewrite Hcards).
  eexists _, w', _. split; [exact Hrun |]. cbn [r_paymentId].
  unfold getPayment, getReceipt. split; [| split].
  - rewrite (payment_findFirst_own id _ w' (pendingPayment req)) by done.
    by rewrite Hpc.
  - rewrite (payment_findFirst_own id _ w' (pendingPayment req)) by done.
    by rewrite Hpc.
  - intros u Hu.
    by rewrite (payment_findFirst_foreign id u w' (pendingPayment req)).
Qed.

Lemma created_payment_is_readable_witness :
  let w := sampleWorld twoStatements ∅ in
  let req := {| req_userId := 7;
                req_body := {| cardId := 1; amount := 800; method := "bank" |};
                req_idempotencyHeader := None |} in
  let card := {| card_userId := 7; card_status := ACTIVE; card_last4 := "4242" |} in
  createPaymentSchema (req_body req) = true
  ∧ card_findFirst 1 7 w = Some card
  ∧ card_status card = ACTIVE
  ∧ 800 ≤ outstandingBalance 1 w
  ∧ idempotentMatch req w = None
  ∧ ∃ data w' task,
      createPaymentHandler req noFault w
      = (Json 201 data "Payment initiated successfully", w', Some task)
      ∧ getPayment (r_paymentId data) 7 w'
        = Ok {| pd_id := r_paymentId data; pd_amount := 800;
                pd_method := "bank"; pd_status := "pending";
                pd_last4 := Some "4242"; pd_externalId := None |}
      ∧ getReceipt (r_paymentId data) 7 w'
        = Ok {| rc_paymentId := r_paymentId data; rc_amount := 800;
                rc_method := "bank"; rc_status := "pending";
                rc_cardLast4 := Some "4242"; rc_externalId := None;
                rc_message := "Payment not completed" |}
      ∧ ∀ u, u ≠ 7 →
          getPayment (r_paymentId data) u w'
          = Throw (NotFoundError "Payment not found")
          ∧ getReceipt (r_paymentId data) u w'
            = Throw (NotFoundError "Payment not found").
Proof.
  intros w req card.
  assert (800 ≤ outstandingBalance 1 w) as Hamt by (by vm_compute).
  split; [reflexivity |]. split; [reflexivity |]. split; [reflexivity |].
  split; [exact Hamt |]. split; [reflexivity |].
  apply (created_payment_is_readable req noFault w card);
    [reflexivity | reflexivity | reflexivity | exact Hamt | reflexivity].
Defined.


Lemma runDeferred_tables d env w :
  let r := processPayment (d_paymentId d) (d_finalStatus d) (d_last4 d)
             (d_userId d) (d_amount d) None env w in
  payments (runDeferred d env w) = payments r.2
  ∧ statements (runDeferred d env w) = statements r.2
  ∧ cards (runDeferred d env w) = cards r.2.
Proof.
  unfold runDeferred.
  by destruct (processPayment _ _ _ _ _ _ _ _) as [[[] | e] w'].
Qed.

Lemma getReceipt_of pid u w p :
  payments w !! pid = Some p → pay_userId p = u →
  getReceipt pid u w
  = Ok {| rc_paymentId := pid; rc_amount := pay_amount p;
          rc_method := pay_method p;
          rc_status := toLowerCase (status_string (pay_status p));
          rc_cardLast4 := card_last4 <$> payment_card p w;
          rc_externalId := orNull (externalId p);
          rc_message := if decide (pay_status p = SUCCESS)
                        then "Payment processed successfully"
                        else "Payment not completed" |}.
Proof.
  intros Hl Hu. unfold getReceipt.
  by rewrite (payment_findFirst_own pid u w p).
Qed.




(** X13. The receipt and the statements agree after the deferred
    resolution, under every environment: either the receipt still shows
    pending and the statements are as before the payment, or it shows
    the final status and the statements are those after a resolution
    to that status. *)
Theorem deferred_settlement_is_all_or_nothing req env env' w card :
  createPaymentSchema (req_body req) = true →
  card_findFirst (cardId (req_body req)) (req_userId req) w = Some card →
  card_status card = ACTIVE →
  amount (req_body req) ≤ outstandingBalance (cardId (req_body req)) w →
  idempotentMatch req w = None →
  ∃ data w1 task,
    createPaymentHandler req env w
    = (Json 201 data "Payment initiated successfully", w1, Some task)
    ∧ ∃ rc,
        getReceipt (r_paymentId data) (req_userId req) (runDeferred task env' w1)
        = Ok rc
        ∧ (rc_status rc = "pending"
           ∧ statements (runDeferred task env' w1) = statements w
           ∨ rc_status rc = toLowerCase (status_string (d_finalStatus task))
             ∧ statements (runDeferred task env' w1)
               = statementsAfter (d_finalStatus task) (amount (req_body req))
                   (pendingPayment req) (statements w)).
Proof.
  intros Hs Hc Ha Hamt Hi.
  destruct (createPaymentHandler_creates req env w card Hs Hc Ha Hamt Hi)
    as (id & w1 & Hrun & Hnew & Hpay & Hst & Hcards & _).
  assert (payments w1 !! id = Some (pendingPayment req)) as Hl
    by (by rewrite Hpay, lookup_insert_eq).
  eexists _, w1, _. split; [exact Hrun |]. cbn [r_paymentId d_finalStatus].
  set (final := if randomSuccess env then SUCCESS else FAILED).
  set (task := {| d_paymentId := id; d_finalStatus := final;
                  d_last4 := card_last4 card; d_userId := req_userId req;
                  d_amount := amount (req_body req) |}).
  destruct (runDeferred_tables task env' w1) as (Hp2 & Hs2 & _).
  cbn [d_paymentId d_finalStatus d_last4 d_userId d_amount task] in Hp2, Hs2.
  destruct (processPayment id final (card_last4 card) (req_userId req)
              (amount (req_body req)) None env' w1) as [[[] | e] w'] eqn:Hw'.
  - apply processPayment_ok in Hw' as (p & Hp & Hpay' & Hst' & _).
    assert (p = pendingPayment req) as -> by congruence.
    cbn [snd] in Hp2, Hs2. rewrite Hpay' in Hp2. rewrite Hst', Hst in Hs2.
    eexists. split.
    + apply (getReceipt_of id (req_userId req) _
               (withStatus final None (pendingPayment req)));
        [by rewrite Hp2, lookup_insert_eq | done].
    + right. by split.
  - apply processPayment_throw in Hw' as [Hpay' Hst'].
    cbn [snd] in Hp2, Hs2. rewrite Hpay' in Hp2. rewrite Hst', Hst in Hs2.
    eexists. split.
    + apply (getReceipt_of id (req_userId req) _ (pendingPayment req));
        [by rewrite Hp2 | done].
    + left. by split.
Qed.

Lemma deferred_settlement_is_all_or_nothing_witness :
  let w := sampleWorld twoStatements ∅ in
  let req := {| req_userId := 7;
                req_body := {| cardId := 1; amount := 800; method := "bank" |};
                req_idempotencyHeader := None |} in
  let card := {| card_userId := 7; card_status := ACTIVE; card_last4 := "4242" |} in
  let env' := {| txFault := Some 3%nat; activityFault := false;
                 notifyFault := false; randomSuccess := true |} in
  createPaymentSchema (req_body req) = true
  ∧ card_findFirst 1 7 w = Some card
  ∧ card_status card = ACTIVE
  ∧ 800 ≤ outstandingBalance 1 w
  ∧ idempotentMatch req w = None
  ∧ ∃ data w1 task,
      createPaymentHandler req noFault w
      = (Json 201 data "Payment initiated successfully", w1, Some task)
      ∧ ∃ rc,
          getReceipt (r_paymentId data) 7 (runDeferred task env' w1) = Ok rc
          ∧ (rc_status rc = "pending"
             ∧ statements (runDeferred task env' w1) = statements w
             ∨ rc_status rc = toLowerCase (status_string (d_finalStatus task))
               ∧ statements (runDeferred task env' w1)
                 = statementsAfter (d_finalStatus task) 800
                     (pendingPayment req) (statements w)).
Proof.
  intros w req card env'.
  assert (800 ≤ outstandingBalance 1 w) as Hamt by (by vm_compute).
  split; [reflexivity |]. split; [reflexivity |]. split; [reflexivity |].
  split; [exact Hamt |]. split; [reflexivity |].
  apply (deferred_settlement_is_all_or_nothing req noFault env' w card);
    [reflexivity | reflexivity | reflexivity | exact Hamt | reflexivity].
Defined.

(** ** The list of payments *)

(** X14. The mapping of the list answer throws exactly when a
    payment of the page has no card, and then it throws a type error;
    when it returns, it returns one entry for each payment in the order
    of the page.  The detail and the receipt of a payment without a
    card answer with a null for the last four digits. *)
Theorem list_fails_on_payment_without_card w page :
  (listItems w page = Throw TypeError
   ↔ ∃ row, row ∈ page ∧ payment_card row.2 w = None)
  ∧ (∀ e, listItems w page = Throw e → e = TypeError)
  ∧ (∀ items, listItems w page = Ok items → li_id <$> items = page.*1)
  ∧ (∀ id p, payments w !! id = Some p → payment_card p w = None →
       ∃ d rc, getPayment id (pay_userId p) w = Ok d ∧ pd_last4 d = None
         ∧ getReceipt id (pay_userId p) w = Ok rc ∧ rc_cardLast4 rc = None).
Proof.
  split; [| split; [| split]].
  - induction page as [| row rest IH]; simpl.
    + split; [done |]. intros (row & Hin & _). by apply elem_of_nil in Hin.
    + unfold listItem at 1.
      destruct (payment_card row.2 w) as [card |] eqn:Hc.
      * destruct (listItems w rest) as [items | e].
        -- split; [done |]. intros (row' & Hin & Hn).
           apply elem_of_cons in Hin as [-> | Hin]; [congruence |].
           assert (Ok items = Throw TypeError) as Habs; [| done].
           apply IH. eauto.
        -- split.
           ++ intros [= ->]. destruct (proj1 IH eq_refl) as (row' & Hin & Hn).
              exists row'. split; [by apply list_elem_of_further | done].
           ++ intros (row' & Hin & Hn).
              apply elem_of_cons in Hin as [-> | Hin]; [congruence |].
              f_equal. assert (Throw e = Throw (A := list ListItem) TypeError)
                as Heq by (apply IH; eauto). by injection Heq.
      * split; [| done]. intros _. exists row.
        split; [apply list_elem_of_here | done].
  - induction page as [| row rest IH]; intros e; simpl; [done |].
    unfold listItem at 1. destruct (payment_card row.2 w); [| by intros [= <-]].
    destruct (listItems w rest) as [items | e']; [done |].
    intros [= <-]. by apply IH.
  - induction page as [| row rest IH]; intros items; simpl.
    + by intros [= <-].
    + unfold listItem at 1. destruct (payment_card row.2 w); [| done].
      destruct (listItems w rest) as [items' | e']; [| done].
      intros [= <-]. simpl. f_equal. by apply IH.
  - intros id p Hl Hc. unfold getPayment, getReceipt.
    rewrite (payment_findFirst_own id _ w p) by done.
    eexists _, _. rewrite Hc. repeat split.
Qed.

Lemma list_fails_on_payment_without_card_witness :
  let p := {| pay_cardId := None; pay_userId := 7; pay_amount := 250;
              pay_method := "razorpay"; pay_status := SUCCESS;
              externalId := Some "pay_1"; idempotencyKey := None |} in
  let w := sampleWorld ∅ {[ "r1" := p ]} in
  payments w !! "r1" = Some p
  ∧ payment_card p w = None
  ∧ listItems w [("r1", p)] = Throw TypeError
  ∧ ∃ d rc, getPayment "r1" (pay_userId p) w = Ok d ∧ pd_last4 d = None
      ∧ getReceipt "r1" (pay_userId p) w = Ok rc ∧ rc_cardLast4 rc = None.
Proof.
  intros p w. split; [reflexivity |]. split; [reflexivity |].
  split; [reflexivity |].
  apply (proj2 (proj2 (proj2 (list_fails_on_payment_without_card w [("r1", p)])))
           "r1" p); reflexivity.
Defined.

(** ** Verification of a gateway payment *)

(** What the handler does once the body is complete, the gateway knows
    the payment and the order, and the payment record is written. *)
Lemma razorpayVerify_run hmac (gw : Gateway) (hasAuthorization : bool)
    reqUserId (body : VerifyBody) env w payment :
  missing (razorpay_order_id body) = false →
  missing (razorpay_payment_id body) = false →
  missing (razorpay_signature body) = false →
  payments_fetch gw (default EmptyString (razorpay_payment_id body))
  = Some payment →
  is_Some (orders_fetch gw (default EmptyString (razorpay_order_id body))) →
  let userId := if hasAuthorization then reqUserId else 1 in
  let userCard := card_findFirst_ofUser userId w in
  let id := fresh (dom (payments w)) in
  let row := {| pay_cardId := cardIdOrNull userCard; pay_userId := userId;
                pay_amount := gp_amount payment / 100;
                pay_method := "razorpay"; pay_status := SUCCESS;
                externalId := Some (default EmptyString (razorpay_payment_id body));
                idempotencyKey := None |} in
  let r := razorpayVerify hmac gw hasAuthorization reqUserId body false env w in
  r.1 = (if notifyFault env
         then VerifyStatus 500 "Payment verification failed"
         else VerifyOk
                {| vp_id := id; vp_amount := gp_amount payment / 100;
                   vp_method := "razorpay"; vp_status := "SUCCESS";
                   vp_razorpayPaymentId :=
                     default EmptyString (razorpay_payment_id body);
                   vp_razorpayOrderId :=
                     default EmptyString (razorpay_order_id body) |}
                "Payment verified successfully")
  ∧ payments w !! id = None
  ∧ payments r.2 = <[id := row]> (payments w)
  ∧ statements r.2 = statements w
  ∧ cards r.2 = cards w.
Proof.
  intros Ho Hp Hs Hpay [[] Hord] userId userCard id row r.
  subst r. unfold razorpayVerify. rewrite Ho, Hp, Hs. cbn [orb].
  rewrite Hpay, Hord. unfold payment_create.
  fold userId. fold userCard. fold id.
  destruct (logActivity_tables userId
              (createActivityData_payment (gp_amount payment / 100)
                 "razorpay" SUCCESS) env
              (set_payments (<[id := row]> (payments w)) w))
    as (Hst & Hpm & _ & Hcd).
  unfold createPaymentSuccessNotification, createPaymentNotification.
  split; [by destruct (notifyFault env) |].
  split; [apply not_elem_of_dom, is_fresh |].
  destruct (notifyFault env); cbn [snd fst]; by rewrite ?Hst, ?Hpm, ?Hcd.
Qed.

(** X15. The verification of a gateway payment never writes a
    statement or a card: the outstanding balance of every card is the
    same after it, whatever it answers. *)
Theorem razorpayVerify_keeps_statements
    hmac gw hasAuthorization reqUserId body createFault env w :
  let w' := (razorpayVerify hmac gw hasAuthorization reqUserId body
               createFault env w).2 in
  statements w' = statements w
  ∧ cards w' = cards w
  ∧ ∀ c, outstandingBalance c w' = outstandingBalance c w.
Proof.
  intros w'.
  assert (statements w' = statements w ∧ cards w' = cards w) as [Hs Hc].
  { subst w'. unfold razorpayVerify.
    destruct (missing _ || missing _ || missing _); [done |].
    destruct (payments_fetch gw _) as [payment |]; [| done].
    destruct (orders_fetch gw _); [| done].
    destruct createFault; [done |].
    unfold payment_create.
    set (userId := if hasAuthorization then reqUserId else 1).
    set (w1 := set_payments _ w).
    destruct (logActivity_tables userId
                (createActivityData_payment (gp_amount payment / 100)
                   "razorpay" SUCCESS) env w1) as (Hst & _ & _ & Hcd).
    unfold createPaymentSuccessNotification, createPaymentNotification.
    destruct (notifyFault env); cbn [snd fst]; by rewrite ?Hst, ?Hcd. }
  split; [exact Hs |]. split; [exact Hc |].
  intros c. by apply outstandingBalance_statements.
Qed.







Lemma card_findFirst_ofUser_None userId w :
  (∀ c card, cards w !! c = Some card → card_userId card ≠ userId) →
  card_findFirst_ofUser userId w = None.
Proof.
  intros Hno. unfold card_findFirst_ofUser. apply head_None.
  destruct (filter _ (map_to_list (cards w))) as [| [c card] l] eqn:E; [done |].
  assert ((c, card) ∈ filter (λ row : Z * Card, card_userId row.2 = userId)
            (map_to_list (cards w))) as Hin
    by (rewrite E; apply list_elem_of_here).
  apply list_elem_of_filter in Hin as [Hu Hin].
  apply elem_of_map_to_list in Hin. by destruct (Hno c card Hin).
Qed.

(** X19. A gateway payment verified for a user without a card is
    stored without a card id.  The webhook for that payment, with a
    status that passes the schema, answers with a type error and leaves
    the world as it is; the detail answers with status success and a
    null for the last four digits; the mapping of the list answer
    throws on a page that holds it. *)
Theorem razorpay_payment_without_card hmac (gw : Gateway)
    (hasAuthorization : bool) reqUserId (body : VerifyBody) env w payment :
  missing (razorpay_order_id body) = false →
  missing (razorpay_payment_id body) = false →
  missing (razorpay_signature body) = false →
  payments_fetch gw (default EmptyString (razorpay_payment_id body))
  = Some payment →
  is_Some (orders_fetch gw (default EmptyString (razorpay_order_id body))) →
  (∀ c card, cards w !! c = Some card →
     card_userId card ≠ (if hasAuthorization then reqUserId else 1)) →
  let w' := (razorpayVerify hmac gw hasAuthorization reqUserId body
               false env w).2 in
  ∃ id p,
    payments w !! id = None
    ∧ payments w' !! id = Some p
    ∧ pay_cardId p = None
    ∧ pay_status p = SUCCESS
    ∧ (∀ b env', wb_paymentId b = id → webhookSchema b ≠ None →
         webhookHandler b env' w' = (Failed TypeError, w'))
    ∧ (∃ d, getPayment id (if hasAuthorization then reqUserId else 1) w' = Ok d
         ∧ pd_last4 d = None ∧ pd_status d = "success")
    ∧ listItems w' [(id, p)] = Throw TypeError.
Proof.
  intros Ho Hp Hs Hpay Hord Hno w'.
  destruct (razorpayVerify_run hmac gw hasAuthorization reqUserId body env w
              payment Ho Hp Hs Hpay Hord) as (_ & Hnew & Hpm & _ & _).
  fold w' in Hpm. rewrite (card_findFirst_ofUser_None _ w Hno) in Hpm.
  cbn [cardIdOrNull] in Hpm.
  eexists _, _. split; [exact Hnew |].
  split; [by rewrite Hpm, lookup_insert_eq |].
  split; [done |]. split; [done |]. split; [| split].
  - intros b env' Hb Hsch. unfold webhookHandler.
    destruct (webhookSchema b) as [st |]; [| done].
    rewrite Hb, Hpm, lookup_insert_eq. done.
  - unfold getPayment, payment_findFirst. rewrite Hpm, lookup_insert_eq.
    cbn [pay_userId]. rewrite decide_True by done.
    eexists. split; [reflexivity |]. by split.
  - reflexivity.
Qed.

Lemma razorpay_payment_without_card_witness :
  let hmac := λ _ : string, "5d41402abc4b2a76" in
  let gw := {| payments_fetch := λ _, Some {| gp_amount := 25000;
                                              gp_status := "captured" |};
               orders_fetch := λ _, Some tt |} in
  let body := {| razorpay_order_id := Some "order_1";
                 razorpay_payment_id := Some "pay_1";
                 razorpay_signature := Some "5d41402abc4b2a76" |} in
  let w := sampleWorld twoStatements ∅ in
  let w' := (razorpayVerify hmac gw true 9 body false noFault w).2 in
  missing (razorpay_order_id body) = false
  ∧ missing (razorpay_payment_id body) = false
  ∧ missing (razorpay_signature body) = false
  ∧ is_Some (orders_fetch gw "order_1")
  ∧ (∀ c card, cards w !! c = Some card → card_userId card ≠ 9)
  ∧ ∃ id p,
      payments w !! id = None
      ∧ payments w' !! id = Some p
      ∧ pay_cardId p = None
      ∧ pay_status p = SUCCESS
      ∧ (∀ b env', wb_paymentId b = id → webhookSchema b ≠ None →
           webhookHandler b env' w' = (Failed TypeError, w'))
      ∧ (∃ d, getPayment id 9 w' = Ok d
           ∧ pd_last4 d = None ∧ pd_status d = "success")
      ∧ listItems w' [(id, p)] = Throw TypeError.
Proof.
  intros hmac gw body w w'.
  assert (is_Some (orders_fetch gw "order_1")) as Hord by (by exists tt).
  assert (∀ c card, cards w !! c = Some card → card_userId card ≠ 9) as Hno.
  { intros c card Hl. simpl in Hl. unfold sampleCards in Hl.
    apply lookup_singleton_Some in Hl as [_ <-]. simpl. lia. }
  split; [reflexivity |]. split; [reflexivity |]. split; [reflexivity |].
  split; [exact Hord |]. split; [exact Hno |].
  apply (razorpay_payment_without_card hmac gw true 9 body noFault w
           {| gp_amount := 25000; gp_status := "captured" |});
    [reflexivity | reflexivity | reflexivity | reflexivity | exact Hord
    | exact Hno].
Defined.
